(** * Verification of [yoix/utils/automap.py]

    A shallow embedding of the column auto-mapping engine
    ([norm], [tokens], [jaccard], [edit_distance], [fuzzy_score],
    [sniff_type], [auto_map_columns], [top_candidates]) and the proofs of
    its specified properties.

    Modelling conventions.
    - A Python [str] is a [string]; the character predicates below are the
      ones Python uses on code points below 128 (the characters of the
      [ascii] type above 127 are treated as caseless, non-blank symbols).
    - Python [int] is [Z].
    - The floats of the similarity measures and of the scorer are idealised
      as exact rationals ([Q]).  The floats of the content sniffer
      ([n * 0.6], [float(v)]) are IEEE binary64 values computed with the
      standard library's [SpecFloat].
    - A [dict] is an association list in insertion order; a [set] used only
      for membership and size is a duplicate-free list.
    - An exception is the [Raise] case of [result]. *)

From Stdlib Require Import List String Ascii Bool.
From Stdlib Require Import ZArith NArith QArith Qround Lia Lqa.
From Stdlib Require Import Permutation Sorted.
From Stdlib Require Import Floats.SpecFloat.
Import ListNotations.

Local Open Scope string_scope.
Local Open Scope Z_scope.

(** ** Exceptions *)

Inductive exn : Type := ValueError.

Inductive result (A : Type) : Type :=
| Ok (a : A)
| Raise (e : exn).
Arguments Ok {A} a.
Arguments Raise {A} e.

Definition bind {A B} (r : result A) (k : A -> result B) : result B :=
  match r with
  | Ok a => k a
  | Raise e => Raise e
  end.

Notation "x <- r ;; k" := (bind r (fun x => k))
  (at level 61, r at next level, right associativity).

(** [[f(x) for x in l]] where [f] may raise: the first exception wins. *)
Fixpoint mapM {A B} (f : A -> result B) (l : list A) : result (list B) :=
  match l with
  | [] => Ok []
  | x :: l' => y <- f x ;; ys <- mapM f l' ;; Ok (y :: ys)
  end.

(** ** Python builtins on characters and strings *)

Module Py.

Definition code (c : ascii) : N := N_of_ascii c.

Definition between (lo hi : N) (c : ascii) : bool :=
  (N.leb lo (code c) && N.leb (code c) hi)%bool.

(** [[a-z]], [[A-Z]], [[0-9]] *)
Definition is_lower (c : ascii) : bool := between 97 122 c.
Definition is_upper (c : ascii) : bool := between 65 90 c.
Definition is_digit (c : ascii) : bool := between 48 57 c.

(** [str.isspace] and the regular expression class [\s]:
    TAB, LF, VT, FF, CR, FS, GS, RS, US and SPACE. *)
Definition is_space (c : ascii) : bool :=
  (between 9 13 c || between 28 32 c)%bool.

(** [str.lower] on one character. *)
Definition to_lower (c : ascii) : ascii :=
  if is_upper c then ascii_of_N (code c + 32) else c.

Fixpoint lower (s : string) : string :=
  match s with
  | EmptyString => EmptyString
  | String c s' => String (to_lower c) (lower s')
  end.

Fixpoint lstrip (s : string) : string :=
  match s with
  | EmptyString => EmptyString
  | String c s' => if is_space c then lstrip s' else s
  end.

Fixpoint rstrip (s : string) : string :=
  match s with
  | EmptyString => EmptyString
  | String c s' =>
      match rstrip s' with
      | EmptyString => if is_space c then EmptyString else String c EmptyString
      | r => String c r
      end
  end.

(** [s.strip()] *)
Definition strip (s : string) : string := rstrip (lstrip s).

(** [s.split(sep)] for a one-character separator. *)
Fixpoint split (sep : ascii) (s : string) : list string :=
  match s with
  | EmptyString => [EmptyString]
  | String c s' =>
      let r := split sep s' in
      if Ascii.eqb c sep then EmptyString :: r
      else match r with
           | w :: ws => String c w :: ws
           | [] => [String c EmptyString]
           end
  end.

(** [s.lstrip(c)] for a one-character argument. *)
Fixpoint lstrip_char (c : ascii) (s : string) : string :=
  match s with
  | EmptyString => EmptyString
  | String d s' => if Ascii.eqb d c then lstrip_char c s' else s
  end.

(** [s.replace(c, '', 1)]: delete the first occurrence of [c]. *)
Fixpoint remove_first (c : ascii) (s : string) : string :=
  match s with
  | EmptyString => EmptyString
  | String d s' => if Ascii.eqb d c then s' else String d (remove_first c s')
  end.

Fixpoint all_chars (p : ascii -> bool) (s : string) : bool :=
  match s with
  | EmptyString => true
  | String c s' => (p c && all_chars p s')%bool
  end.

(** [s.isdigit()]: non-empty and made of digits. *)
Definition isdigit (s : string) : bool :=
  match s with
  | EmptyString => false
  | _ => all_chars is_digit s
  end.

(** Sets of strings (membership and size only). *)
Definition mem (x : string) (l : list string) : bool :=
  existsb (String.eqb x) l.

Fixpoint set_of (l : list string) : list string :=
  match l with
  | [] => []
  | x :: l' => let r := set_of l' in if mem x r then r else x :: r
  end.

Definition set_add (x : string) (l : list string) : list string :=
  if mem x l then l else l ++ [x].

Definition inter (a b : list string) : list string :=
  filter (fun x => mem x b) a.

Definition union (a b : list string) : list string :=
  a ++ filter (fun x => negb (mem x a)) b.

(** [list(dict.fromkeys(l))]: drop repeats, keep first occurrences. *)
Fixpoint fromkeys_aux (seen l : list string) : list string :=
  match l with
  | [] => []
  | x :: l' =>
      if mem x seen then fromkeys_aux seen l'
      else x :: fromkeys_aux (x :: seen) l'
  end.

Definition fromkeys (l : list string) : list string := fromkeys_aux [] l.

(** [d.get(k)] on an insertion-ordered dictionary. *)
Fixpoint get {V} (k : string) (d : list (string * V)) : option V :=
  match d with
  | [] => None
  | (k', v) :: d' => if String.eqb k k' then Some v else get k d'
  end.

Definition get_default {V} (k : string) (d : list (string * V)) (dflt : V) : V :=
  match get k d with
  | Some v => v
  | None => dflt
  end.

(** [d[k] = v]: overwrite in place, or append a new key. *)
Fixpoint set_item {V} (k : string) (v : V) (d : list (string * V))
  : list (string * V) :=
  match d with
  | [] => [(k, v)]
  | (k', v') :: d' =>
      if String.eqb k k' then (k, v) :: d' else (k', v') :: set_item k v d'
  end.

(** [max(x0, xs...)] on rationals: the first maximal element. *)
Fixpoint max_from (best : Q) (l : list Q) : Q :=
  match l with
  | [] => best
  | x :: l' => max_from (if Qlt_le_dec best x then x else best) l'
  end.

Definition max_default (l : list Q) (dflt : Q) : Q :=
  match l with
  | [] => dflt
  | x :: l' => max_from x l'
  end.

(** [round(x)] with no digits argument: to the nearest integer, ties to
    the even one. *)
Definition round (x : Q) : Z :=
  let f := Qfloor x in
  match Qcompare (x - inject_Z f) (1 # 2) with
  | Lt => f
  | Gt => f + 1
  | Eq => if Z.even f then f else f + 1
  end.

(** [l[:k]], with Python's reading of a negative bound. *)
Definition slice_to {A} (k : Z) (l : list A) : list A :=
  if k <? 0 then firstn (Z.to_nat (Z.of_nat (List.length l) + k)) l
  else firstn (Z.to_nat k) l.

End Py.

(** ** Regular expressions (the fragment used by the three patterns) *)

Module Re.

Inductive regex : Type :=
| Void
| Eps
| Cls (p : ascii -> bool)
| Cat (r s : regex)
| Alt (r s : regex)
| Star (r : regex).

Fixpoint nullable (r : regex) : bool :=
  match r with
  | Void => false
  | Eps => true
  | Cls _ => false
  | Cat r s => (nullable r && nullable s)%bool
  | Alt r s => (nullable r || nullable s)%bool
  | Star _ => true
  end.

Definition cat (r s : regex) : regex :=
  match r, s with
  | Void, _ => Void
  | _, Void => Void
  | Eps, _ => s
  | _, _ => Cat r s
  end.

Definition alt (r s : regex) : regex :=
  match r, s with
  | Void, _ => s
  | _, Void => r
  | _, _ => Alt r s
  end.

Fixpoint deriv (c : ascii) (r : regex) : regex :=
  match r with
  | Void => Void
  | Eps => Void
  | Cls p => if p c then Eps else Void
  | Cat r s =>
      if nullable r then alt (cat (deriv c r) s) (deriv c s)
      else cat (deriv c r) s
  | Alt r s => alt (deriv c r) (deriv c s)
  | Star r => cat (deriv c r) (Star r)
  end.

(** The whole string is in the language of [r]. *)
Fixpoint fullmatch (r : regex) (s : string) : bool :=
  match s with
  | EmptyString => nullable r
  | String c s' => fullmatch (deriv c r) s'
  end.

Definition any : regex := Cls (fun _ => true).
Definition plus (r : regex) : regex := Cat r (Star r).
Definition opt (r : regex) : regex := Alt Eps r.

Fixpoint at_least (n : nat) (r : regex) : regex :=
  match n with
  | O => Star r
  | S n' => Cat r (at_least n' r)
  end.

(** One literal character; with [re.I] a letter matches in either case. *)
Definition chr (c : ascii) : regex := Cls (Ascii.eqb c).
Definition chr_i (c : ascii) : regex :=
  Cls (fun d => Ascii.eqb (Py.to_lower d) (Py.to_lower c)).

(** [pattern.search(s)]: some substring is in the language. *)
Definition search (r : regex) (s : string) : bool :=
  fullmatch (Cat (Star any) (Cat r (Star any))) s.

End Re.

(** ** Normaliser *)

(** [re.sub(r"([a-z])([A-Z])", r"\1 \2", s)].  A match ends in a capital,
    which cannot start another match, so matches never overlap and every
    lower-case/capital boundary receives a space. *)
Fixpoint split_camel (s : string) : string :=
  match s with
  | EmptyString => EmptyString
  | String c s' =>
      let r := split_camel s' in
      String c
        match s' with
        | String d _ =>
            if (Py.is_lower c && Py.is_upper d)%bool then String " " r else r
        | EmptyString => r
        end
  end.

(** [re.sub(CLASS+, " ", s)]: every maximal run of characters of the class
    becomes one space; [in_run] tells that the previous character belongs
    to a run already replaced. *)
Fixpoint squeeze (p : ascii -> bool) (in_run : bool) (s : string) : string :=
  match s with
  | EmptyString => EmptyString
  | String c s' =>
      if p c then
        if in_run then squeeze p true s' else String " " (squeeze p true s')
      else String c (squeeze p false s')
  end.

(** [[_\-.\/]] *)
Definition is_sep (c : ascii) : bool :=
  (Ascii.eqb c "_" || Ascii.eqb c "-" || Ascii.eqb c "." || Ascii.eqb c "/")%bool.

Definition norm (s : string) : string :=
  let s := Py.strip s in
  let s := split_camel s in
  let s := squeeze is_sep false s in
  let s := squeeze Py.is_space false s in
  Py.strip (Py.lower s).

Definition nonempty (s : string) : bool :=
  match s with
  | EmptyString => false
  | _ => true
  end.

Definition tokens (s : string) : list string :=
  Py.set_of (filter nonempty (Py.split " " (norm s))).

(** ** Similarity primitives *)

Definition len (s : string) : Z := Z.of_nat (String.length s).
Definition size {A} (l : list A) : Z := Z.of_nat (List.length l).

Definition jaccard (a b : list string) : Q :=
  match a, b with
  | [], [] => 1%Q
  | _, _ =>
      let inter := size (Py.inter a b) in
      let union := if size (Py.union a b) =? 0 then 1 else size (Py.union a b) in
      (inject_Z inter / inject_Z union)%Q
  end.

(** The inner loop of [edit_distance]: [prev] holds [prev[j-1], prev[j], ...],
    [left] is [cur[j-1]], [B] the characters [B[j-1], ...]; the result is
    [cur[j], cur[j+1], ...]. *)
Fixpoint fill_row (ai : ascii) (B : string) (prev : list Z) (left : Z)
  : list Z :=
  match B, prev with
  | String bj B', pd :: ((pu :: _) as prev') =>
      let cost := if Ascii.eqb ai bj then 0 else 1 in
      let v := Z.min (Z.min (pu + 1) (left + 1)) (pd + cost) in
      v :: fill_row ai B' prev' v
  | _, _ => []
  end.

(** One turn of the outer loop: the row [cur] built from [prev].  Every cell
    of [cur] is overwritten, so exchanging the two buffers only recycles
    storage. *)
Definition next_row (i : Z) (ai : ascii) (B : string) (prev : list Z)
  : list Z :=
  i :: fill_row ai B prev i.

Fixpoint dp_rows (A B : string) (i : Z) (prev : list Z) : list Z :=
  match A with
  | EmptyString => prev
  | String ai A' => dp_rows A' B (i + 1) (next_row i ai B prev)
  end.

(** [list(range(n))] *)
Definition range (n : nat) : list Z := map Z.of_nat (seq 0 n).

Definition edit_distance (a b : string) : Z :=
  let A := norm a in
  let B := norm b in
  let la := len A in
  let lb := len B in
  if la =? 0 then lb
  else if lb =? 0 then la
  else nth (String.length B) (dp_rows A B 1 (range (String.length B + 1))) 0.

Definition fuzzy_score (h alias : string) : Q :=
  let h_n := norm h in
  let a_n := norm alias in
  if String.eqb h_n a_n then 1%Q
  else
    let dist := edit_distance h_n a_n in
    let max_len :=
      if Z.max (len h_n) (len a_n) =? 0 then 1 else Z.max (len h_n) (len a_n) in
    (1 - inject_Z dist / inject_Z max_len)%Q.

(** ** IEEE binary64 values of the content sniffer *)

Module F64.

Definition prec : Z := 53.
Definition emax : Z := 1024.

(** [float(n)] for an integer [n]. *)
Definition of_Z (n : Z) : spec_float := binary_normalize prec emax n 0 false.

Fixpoint pow10 (k : nat) : positive :=
  match k with
  | O => 1%positive
  | S k' => (10 * pow10 k')%positive
  end.

(** The double nearest to [(-1)^neg * m / 10^k]: the value [float] gives to a
    decimal literal with digits [m], of which [k] follow the point. *)
Definition of_decimal (neg : bool) (m : Z) (k : nat) : spec_float :=
  match m with
  | Zpos p =>
      SFdiv prec emax (S754_finite neg p 0)
            (S754_finite false (pow10 k) 0)
  | _ => S754_zero neg
  end.

Definition mul : spec_float -> spec_float -> spec_float := SFmul prec emax.
Definition leb : spec_float -> spec_float -> bool := SFleb.

(** [int(x)]: truncation toward zero (the sniffer applies it to finite
    values only). *)
Definition to_int (x : spec_float) : Z :=
  match x with
  | S754_finite s m e =>
      let a := if 0 <=? e then Z.shiftl (Zpos m) e else Z.shiftr (Zpos m) (- e) in
      if s then - a else a
  | _ => 0
  end.

End F64.

(** ** Content sniffer *)

(** [PHONE_RE = \+?[\d\s().-]{7,}] *)
Definition phone_char (c : ascii) : bool :=
  (Py.is_digit c || Py.is_space c || Ascii.eqb c "(" || Ascii.eqb c ")"
   || Ascii.eqb c "." || Ascii.eqb c "-")%bool.

Definition PHONE_RE : Re.regex :=
  Re.Cat (Re.opt (Re.chr "+")) (Re.at_least 7 (Re.Cls phone_char)).

(** [EMAIL_RE = ^[^\s@]+@[^\s@]+\.[^\s]+$], case-insensitive *)
Definition not_space (c : ascii) : bool := negb (Py.is_space c).
Definition not_space_at (c : ascii) : bool :=
  (negb (Py.is_space c) && negb (Ascii.eqb c "@"))%bool.

Definition EMAIL_RE : Re.regex :=
  Re.Cat (Re.plus (Re.Cls not_space_at))
    (Re.Cat (Re.chr "@")
       (Re.Cat (Re.plus (Re.Cls not_space_at))
          (Re.Cat (Re.chr ".") (Re.plus (Re.Cls not_space))))).

(** [URL_RE = ^https?://[^\s/$.?#].[^\s]*$], case-insensitive *)
Definition host_start (c : ascii) : bool :=
  (negb (Py.is_space c) && negb (Ascii.eqb c "/") && negb (Ascii.eqb c "$")
   && negb (Ascii.eqb c ".") && negb (Ascii.eqb c "?")
   && negb (Ascii.eqb c "#"))%bool.

(** [.] without [re.S]: any character but a line feed. *)
Definition dot (c : ascii) : bool := negb (Ascii.eqb c "010").

Definition URL_RE : Re.regex :=
  Re.Cat (Re.chr_i "h") (Re.Cat (Re.chr_i "t") (Re.Cat (Re.chr_i "t")
    (Re.Cat (Re.chr_i "p") (Re.Cat (Re.opt (Re.chr_i "s"))
      (Re.Cat (Re.chr ":") (Re.Cat (Re.chr "/") (Re.Cat (Re.chr "/")
        (Re.Cat (Re.Cls host_start)
           (Re.Cat (Re.Cls dot) (Re.Star (Re.Cls not_space))))))))))).

(** [pattern.match(v)] for the two anchored patterns.  The sample values are
    stripped, so [$] can only match at the very end. *)
Definition email_match (v : string) : bool := Re.fullmatch EMAIL_RE v.
Definition url_match (v : string) : bool := Re.fullmatch URL_RE v.
Definition phone_search (v : string) : bool := Re.search PHONE_RE v.

(** [v.replace('.', '', 1).lstrip('-').isdigit()] *)
Definition numeric_guard (v : string) : bool :=
  Py.isdigit (Py.lstrip_char "-" (Py.remove_first "." v)).

Fixpoint span_digits (s : string) : string * string :=
  match s with
  | String c s' =>
      if Py.is_digit c then
        let (d, r) := span_digits s' in (String c d, r)
      else (EmptyString, s)
  | EmptyString => (EmptyString, EmptyString)
  end.

Fixpoint digits_value (acc : Z) (s : string) : Z :=
  match s with
  | EmptyString => acc
  | String c s' => digits_value (10 * acc + Z.of_N (Py.code c - 48)) s'
  end.

(** [float(v)] on plain decimal literals: an optional sign, digits, an
    optional point and digits, at least one digit in all.  Anything else
    raises [ValueError].  (Python also reads exponents, blanks, underscores,
    [inf] and [nan]; none of these passes [numeric_guard], and [and] does not
    evaluate [float(v)] when the guard fails.) *)
Definition py_float (v : string) : result spec_float :=
  let '(neg, body) :=
    match v with
    | String "-" r => (true, r)
    | String "+" r => (false, r)
    | _ => (false, v)
    end in
  let '(ip, rest) := span_digits body in
  let frac :=
    match rest with
    | EmptyString => Some EmptyString
    | String "." r => if Py.all_chars Py.is_digit r then Some r else None
    | _ => None
    end in
  match frac with
  | None => Raise ValueError
  | Some fp =>
      if (nonempty ip || nonempty fp)%bool then
        Ok (F64.of_decimal neg (digits_value 0 (ip ++ fp)) (String.length fp))
      else Raise ValueError
  end.

(** [lo <= x <= hi] for integer bounds and a float [x]. *)
Definition float_between (lo hi : Z) (x : spec_float) : bool :=
  (F64.leb (F64.of_Z lo) x && F64.leb x (F64.of_Z hi))%bool.

(** [lambda v: v.replace('.', '', 1).lstrip('-').isdigit()
              and lo <= float(v) <= hi] *)
Definition range_pred (lo hi : Z) (v : string) : result bool :=
  if numeric_guard v then
    x <- py_float v ;; Ok (float_between lo hi x)
  else Ok false.

Definition lat_pred : string -> result bool := range_pred (-90) 90.
Definition lng_pred : string -> result bool := range_pred (-180) 180.

(** [sum(1 for v in sample if pred(v))] *)
Definition count (pred : string -> bool) (sample : list string) : Z :=
  size (filter pred sample).

Fixpoint count_raising (pred : string -> result bool) (sample : list string)
  : result Z :=
  match sample with
  | [] => Ok 0
  | v :: rest =>
      b <- pred v ;; c <- count_raising pred rest ;;
      Ok (if b : bool then 1 + c else c)
  end.

(** The float literals [0.2] and [0.6]. *)
Definition f0_2 : spec_float := F64.of_decimal false 2 1.
Definition f0_6 : spec_float := F64.of_decimal false 6 1.

(** [int(n * x)] *)
Definition int_times (n : Z) (x : spec_float) : Z :=
  F64.to_int (F64.mul (F64.of_Z n) x).

(** [[str(v).strip() for v in values[:50]
       if v is not None and str(v).strip() != ""]] *)
Definition sample_of (values : list (option string)) : list string :=
  flat_map (fun v => match v with
                     | Some s => if nonempty (Py.strip s) then [Py.strip s] else []
                     | None => []
                     end)
           (firstn 50 values).

(** The flags are the keys of the returned dictionary (each bound to
    [True]), in insertion order. *)
Definition flag_if (b : bool) (name : string) : list string :=
  if b then [name] else [].

Definition sniff_type (values : list (option string)) : result (list string) :=
  let sample := sample_of values in
  let n := size sample in
  if n =? 0 then Ok []
  else
    let email := flag_if (Z.max 2 (int_times n f0_2) <=? count email_match sample) "email" in
    let phone := flag_if (Z.max 2 (int_times n f0_2) <=? count phone_search sample) "phone" in
    let website := flag_if (Z.max 2 (int_times n f0_2) <=? count url_match sample) "website" in
    c_lat <- count_raising lat_pred sample ;;
    let lat := flag_if (int_times n f0_6 <=? c_lat) "lat" in
    c_lng <- count_raising lng_pred sample ;;
    let lng := flag_if (int_times n f0_6 <=? c_lng) "lng" in
    Ok (email ++ phone ++ website ++ lat ++ lng)%list.

Definition strs (l : list string) : list (option string) := map Some l.

(** ** Alias registry, scorer and assigner *)

Definition ALIASES : list (string * list string) :=
  [ ("name", ["name"; "business_name"; "company"; "title"; "listing_name"]);
    ("address", ["address"; "street"; "street1"; "addr1"; "line1"]);
    ("address2", ["address2"; "street2"; "addr2"; "line2"; "suite"; "unit"; "apt"]);
    ("city", ["city"; "town"; "locality"]);
    ("state", ["state"; "province"; "region"; "state_province"; "admin_area"]);
    ("postal_code", ["zip"; "zipcode"; "postal"; "postal_code"; "post_code"; "postcode"]);
    ("country", ["country"; "country_code"; "nation"; "iso2"; "iso3"]);
    ("phone", ["phone"; "tel"; "telephone"; "mobile"; "cell"; "contact_phone"]);
    ("email", ["email"; "e-mail"; "contact_email"]);
    ("website", ["website"; "url"; "link"; "homepage"; "site"]);
    ("lat", ["lat"; "latitude"; "y"]);
    ("lng", ["lng"; "long"; "longitude"; "x"]);
    ("category", ["category"; "type"; "segment"; "vertical"]);
    ("tags", ["tags"; "keywords"; "labels"]);
    ("description", ["description"; "about"; "summary"; "blurb"]);
    ("hours", ["hours"; "opening_hours"; "open_hours"; "schedule"]);
    ("price", ["price"; "cost"; "pricing"; "price_level"]);
    ("rating", ["rating"; "stars"; "score"]) ].

(** One element of a ranked list: [{"header": h, "score": n}]. *)
Record entry : Type := { header : string; score : Z }.

Definition Mapping : Type := list (string * string).
Definition Scores : Type := list (string * list entry).
Definition AliasTable : Type := list (string * list string).

(** A sample row: a dictionary from header to cell, [None] for a null cell. *)
Definition Row : Type := list (string * option string).

Definition keys {V} (d : list (string * V)) : list string := map fst d.

(** [sorted(l, key=lambda x: x["score"], reverse=True)]: the stable sort,
    written as insertion from the right; an element goes in front of the
    elements it does not score below, so equal scores keep their order. *)
Fixpoint insert_desc (x : entry) (l : list entry) : list entry :=
  match l with
  | [] => [x]
  | y :: l' => if score x <? score y then y :: insert_desc x l' else x :: l
  end.

Definition sorted_desc (l : list entry) : list entry :=
  fold_right insert_desc [] l.

(** The values appended to [samples_by_header[h]]: one per row and per
    occurrence of [h] in [headers], when the row has a non-null cell. *)
Definition samples_by_header (headers : list string) (rows : list Row)
  (h : string) : list string :=
  flat_map
    (fun r =>
       flat_map
         (fun h' =>
            if String.eqb h' h then
              match Py.get h r with
              | Some (Some v) => [v]
              | _ => []
              end
            else [])
         headers)
    rows.

(** The score of one (field, header) pair: the body of the inner loop. *)
Definition score_pair (field : string) (alias_list flags : list string)
  (h : string) : Z :=
  let hn_norm := norm h in
  let hn_toks := tokens h in
  let sc := 0%Q in
  let sc :=
    if existsb (fun a => String.eqb (norm a) hn_norm) alias_list
    then (sc + 100)%Q else sc in
  let sc :=
    match alias_list with
    | [] => sc
    | _ =>
        let alias_tok_max :=
          Py.max_default (map (fun a => jaccard hn_toks (tokens a)) alias_list) 0%Q in
        let sc := (sc + 70 * alias_tok_max)%Q in
        let fuzzy_max :=
          Py.max_default (map (fun a => fuzzy_score h a) alias_list) 0%Q in
        (sc + 40 * fuzzy_max)%Q
    end in
  let sc := if Py.mem field flags then (sc + 30)%Q else sc in
  let sc :=
    if (String.eqb field "postal_code" && Py.mem hn_norm ["zip"; "zipcode"])%bool
    then (sc + 10)%Q else sc in
  let sc :=
    if (String.eqb field "phone" && Py.mem hn_norm ["tel"; "telephone"])%bool
    then (sc + 10)%Q else sc in
  let sc :=
    if (String.eqb field "state" && Py.mem "status" hn_toks)%bool
    then (sc - 30)%Q else sc in
  Py.round sc.

Definition scored (field : string) (alias_list : list string)
  (sniff_flags : list (string * list string)) (headers : list string)
  : list entry :=
  map (fun h =>
         {| header := h;
            score := score_pair field alias_list
                       (Py.get_default h sniff_flags []) h |})
      headers.

Definition score_table (all_aliases : AliasTable)
  (sniff_flags : list (string * list string)) (headers : list string)
  : Scores :=
  map (fun fa => (fst fa, sorted_desc (scored (fst fa) (snd fa) sniff_flags headers)))
      all_aliases.

(** One turn of the assignment loop; the state is [(mapping, chosen_headers)]. *)
Definition assign_step (threshold : Z) (st : Mapping * list string)
  (fr : string * list entry) : Mapping * list string :=
  let '(mapping, chosen_headers) := st in
  let '(field, ranked) := fr in
  match find (fun s => negb (Py.mem (header s) chosen_headers)) ranked with
  | Some best =>
      if threshold <=? score best then
        (Py.set_item field (header best) mapping,
         Py.set_add (header best) chosen_headers)
      else st
  | None => st
  end.

Definition assign_loop (threshold : Z) (scores : Scores)
  (st : Mapping * list string) : Mapping * list string :=
  fold_left (assign_step threshold) scores st.

Definition assign (threshold : Z) (scores : Scores) : Mapping :=
  fst (assign_loop threshold scores ([], [])).

Definition top_candidates (scores : Scores) (field : string) (k : Z)
  : list (string * Z) :=
  let ranked := Py.get_default field scores [] in
  map (fun r => (header r, score r)) (Py.slice_to k ranked).

(** [learned_aliases or {}] *)
Definition or_empty (learned_aliases : option AliasTable) : AliasTable :=
  match learned_aliases with
  | Some d => d
  | None => []
  end.

Section Engine.

(** The order in which Python enumerates a [set] of strings follows their
    hashes, which CPython salts anew in every process.  [set_iter l] is the
    enumeration of the set of the elements of [l]; the proofs assume of it
    only what holds of every enumeration of a set: it lists the elements of
    [l], each once. *)
Variable set_iter : list string -> list string.

(** The merged alias table: a dictionary comprehension over
    [set(ALIASES) | set(learned_aliases)]. *)
Definition all_aliases (learned : AliasTable) : AliasTable :=
  map (fun k =>
         (k, Py.fromkeys (Py.get_default k ALIASES []
                            ++ Py.get_default k learned [])%list))
      (set_iter (keys ALIASES ++ keys learned)%list).

Definition sniff_all (headers : list string) (rows : list Row)
  : result (list (string * list string)) :=
  mapM (fun h =>
          fl <- sniff_type (strs (samples_by_header headers rows h)) ;;
          Ok (h, fl))
       headers.

Definition auto_map_columns (headers : list string) (rows : list Row)
  (learned_aliases : option AliasTable) (threshold : Z)
  : result (Mapping * Scores) :=
  let learned_aliases := or_empty learned_aliases in
  let all_aliases := all_aliases learned_aliases in
  sniff_flags <- sniff_all headers rows ;;
  let scores := score_table all_aliases sniff_flags headers in
  Ok (assign threshold scores, scores).

End Engine.

(** Two enumerations of a set: first occurrences in order, and the reverse. *)
Definition iter_first (l : list string) : list string := Py.fromkeys l.
Definition iter_last (l : list string) : list string := rev (Py.fromkeys l).

(** ** The import command ([yoix_import] in [cli.py]): what it derives from
    the engine's result *)

(** [[h for h in headers if h not in mapping.values()]] *)
Definition unmapped_columns (headers : list string) (mapping : Mapping)
  : list string :=
  filter (fun h => negb (Py.mem h (map snd mapping))) headers.

(** [next((s["score"] for s in scores[field] if s["header"] == header), 0)],
    the confidence printed beside a mapped field; [None] stands for the
    [KeyError] of [scores[field]]. *)
Definition confidence (scores : Scores) (field h : string) : option Z :=
  match Py.get field scores with
  | Some ranked =>
      Some match find (fun s => String.eqb (header s) h) ranked with
           | Some s => score s
           | None => 0
           end
  | None => None
  end.

(** The learned aliases stored after an import: for each mapped field, the
    aliases learned before followed by the header just mapped, without
    repeats.  (The loop assigns [learned_for_storage[field]] twice, the
    second time with the repeats removed; the model writes the final
    value.) *)
Definition learned_for_storage (learned_mappings : AliasTable)
  (mapping : Mapping) : AliasTable :=
  fold_left
    (fun acc fh =>
       Py.set_item (fst fh)
         (Py.fromkeys (Py.get_default (fst fh) learned_mappings []
                       ++ [snd fh])%list)
         acc)
    mapping [].

(** * Definitions used in the statements *)

(** ** Invariants of the assignment loop *)

(** No header is assigned twice, and every assigned header is marked as
    chosen. *)
Definition claims_ok (st : Mapping * list string) : Prop :=
  NoDup (map snd (fst st)) /\ forall h, In h (map snd (fst st)) -> In h (snd st).

(** While the fields still to come are new, the mapping has one entry per
    chosen header and the chosen headers are the assigned ones. *)
Definition balanced (st : Mapping * list string) (todo : Scores) : Prop :=
  NoDup (snd st)
  /\ List.length (fst st) = List.length (snd st)
  /\ (forall k, In k (keys (fst st)) -> ~ In k (keys todo))
  /\ (forall h, In h (snd st) <-> In h (map snd (fst st))).

(** The header a field receives: the first entry of its ranked list whose
    header no earlier field holds, if its score reaches the threshold. *)
Definition claim (t : Z) (taken : list string) (ranked : list entry)
  : option string :=
  match find (fun s => negb (Py.mem (header s) taken)) ranked with
  | Some best => if t <=? score best then Some (header best) else None
  | None => None
  end.

(** Each entry of the mapping comes from an entry of the field's ranked
    list that reaches the threshold; the fields of the mapping are
    distinct fields of the scores. *)
Definition justified (t : Z) (all : Scores) (st : Mapping * list string)
  : Prop :=
  NoDup (keys (fst st))
  /\ forall f h, In (f, h) (fst st) ->
       exists ranked e,
         In (f, ranked) all /\ In e ranked /\ header e = h /\ t <= score e.

(** The field order as the specification words it: the built-in fields in
    the order of the built-in table, then the fields only the learned table
    has. *)
Definition builtin_first (learned : AliasTable) : list string :=
  Py.fromkeys (keys ALIASES ++ keys learned)%list.

(** ** Ranked lists *)

(** Descending by score. *)
Definition desc (a b : entry) : Prop := score b <= score a.

(** The entries of score [v], in the order they have in [l]; a sort is
    stable when it leaves this list unchanged for every [v]. *)
Definition with_score (v : Z) (l : list entry) : list entry :=
  filter (fun e => score e =? v) l.

(** ** Normalised strings *)

(** A character a normalised string may hold. *)
Definition plain (c : ascii) : Prop :=
  Py.is_upper c = false /\ is_sep c = false
  /\ (Py.is_space c = true -> c = " "%char).

(** [tidy b s]: the characters of [s] are plain and no blank follows a
    blank, [b] telling whether a blank precedes [s]. *)
Fixpoint tidy (b : bool) (s : string) : Prop :=
  match s with
  | EmptyString => True
  | String c s' =>
      plain c /\ (b = true -> Py.is_space c = false) /\ tidy (Py.is_space c) s'
  end.

Definition normal (s : string) : Prop := tidy true s /\ Py.rstrip s = s.

(** ** The table of the edit distance *)

(** [row_ok i j row]: the cells of [row], which sit at columns [j], [j+1],
    ... of line [i] of the table, lie between 0 and the larger index. *)
Fixpoint row_ok (i j : Z) (row : list Z) : Prop :=
  match row with
  | [] => True
  | x :: r => 0 <= x <= Z.max i j /\ row_ok i (j + 1) r
  end.

(** ** Samples *)

(** What one raw value contributes to the sample. *)
Definition kept (v : option string) : list string :=
  match v with
  | Some s => if nonempty (Py.strip s) then [Py.strip s] else []
  | None => []
  end.

(** A raw value that contributes nothing: null or blank. *)
Definition blank (v : option string) : bool :=
  match kept v with
  | [] => true
  | _ => false
  end.

(** The sample as the specification words it: the first 50 values that are
    neither null nor blank, wherever they stand in the list. *)
Definition first_nonblank_50 (values : list (option string)) : list string :=
  firstn 50 (flat_map kept values).

(** Fifty blank cells followed by two addresses. *)
Definition blanks_then_emails : list (option string) :=
  (repeat (Some " ") 50 ++ [Some "a@b.co"; Some "c@d.org"])%list.

(** The predicate holds of [v]: it returns [True] without raising. *)
Definition holds (pred : string -> result bool) (v : string) : bool :=
  match pred v with
  | Ok b => b
  | Raise _ => false
  end.

(** [float] reads [v] if [v] passes the digit test. *)
Definition parses (v : string) : Prop :=
  numeric_guard v = true -> exists x, py_float v = Ok x.

(** The characters of the values that pass the digit test. *)
Definition decimal_char (c : ascii) : bool :=
  (Py.is_digit c || Ascii.eqb c "-" || Ascii.eqb c ".")%bool.

(** ** A small import, used to exercise the statements *)

Definition demo_headers : list string := ["Zip"; "businessName"; "contact"].

Definition demo_rows : list Row :=
  [ [("Zip", Some "12345"); ("businessName", Some "Joe's");
     ("contact", Some "a@b.co")];
    [("Zip", Some "94110"); ("businessName", None);
     ("contact", Some "c@d.org")] ].

Definition demo_mapping : Mapping :=
  [("name", "businessName"); ("postal_code", "Zip"); ("email", "contact")].

Definition demo_scores : Scores :=
  Eval vm_compute in
    match auto_map_columns iter_first demo_headers demo_rows None 75 with
    | Ok (_, s) => s
    | Raise _ => []
    end.

(** ** The Levenshtein distance *)

(** [chars s] are the characters of [s], [rchars s] the same, last first. *)
Definition chars (s : string) : list ascii := list_ascii_of_string s.
Definition rchars (s : string) : list ascii := rev (chars s).

(** The distance by its recurrence on the last characters of the two
    strings, each given by its characters, last first: delete the last
    character of the first, insert the last character of the second, or
    substitute one for the other. *)
Fixpoint lev (ra rb : list ascii) : Z :=
  match ra with
  | [] => Z.of_nat (List.length rb)
  | x :: ra' =>
      (fix lev_x (rb : list ascii) : Z :=
         match rb with
         | [] => Z.of_nat (List.length ra)
         | y :: rb' =>
             Z.min (Z.min (lev ra' rb + 1) (lev_x rb' + 1))
                   (lev ra' rb' + (if Ascii.eqb x y then 0 else 1))
         end) rb
  end.

(** The line of the table for the prefix [ra], from the column of the
    prefix [rb] on, along the remaining characters [B]. *)
Fixpoint row_from (ra rb : list ascii) (B : string) : list Z :=
  lev ra rb ::
  match B with
  | EmptyString => []
  | String y B' => row_from ra (y :: rb) B'
  end.

(** ** The shape of a normalised string *)

Definition norm_char (c : ascii) : bool :=
  (negb (Py.is_upper c) && negb (is_sep c)
   && (negb (Py.is_space c) || Ascii.eqb c " "))%bool.

(** No two blanks in a row. *)
Fixpoint single_spaced (s : string) : bool :=
  match s with
  | String c ((String d _) as s') =>
      (negb (Py.is_space c && Py.is_space d) && single_spaced s')%bool
  | _ => true
  end.


(** ** Decimal literals *)


(** * Properties *)

(** ** The model at work *)

Example norm_camel : norm "  businessName " = "business name".
Proof. reflexivity. Qed.

Example norm_seps : norm "Contact__E-mail./x" = "contact e mail x".
Proof. reflexivity. Qed.

Example tokens_ex : tokens "name_business NAME" = ["business"; "name"].
Proof. reflexivity. Qed.

Example edit_ex : edit_distance "kitten" "sitting" = 3.
Proof. reflexivity. Qed.

Example fuzzy_ex : (fuzzy_score "statu" "state" == 4 # 5)%Q.
Proof. reflexivity. Qed.

Example sniff_emails :
  sniff_type (strs ["a@b.co"; "x.y@z.org"; "nope"; " "]) = Ok ["email"].
Proof. vm_compute. reflexivity. Qed.

Example sniff_coords :
  sniff_type (strs ["40.7128"; "-74.0060"; "12"; "200.5"; "abc"])
  = Ok ["phone"; "lat"; "lng"].
Proof. vm_compute. reflexivity. Qed.

Example sniff_phone :
  sniff_type (strs ["+1 (555) 123-4567"; "555.123.4567"]) = Ok ["phone"].
Proof. vm_compute. reflexivity. Qed.

Example sniff_url :
  sniff_type (strs ["HTTPS://example.com/a"; "http://x.y"; "ftp://x.y"; "http://.bad" ; "q"; "r"]) = Ok ["website"].
Proof. vm_compute. reflexivity. Qed.

(** ** Sets and dictionaries *)

Lemma mem_In (x : string) (l : list string) : Py.mem x l = true <-> In x l.
Proof.
  unfold Py.mem. rewrite existsb_exists. split.
  - intros (y & Hy & E). apply String.eqb_eq in E. now subst.
  - intros H. exists x. split; [assumption | apply String.eqb_refl].
Qed.

Lemma mem_false (x : string) (l : list string) :
  Py.mem x l = false <-> ~ In x l.
Proof.
  rewrite <- mem_In. destruct (Py.mem x l); split; congruence.
Qed.

Lemma fromkeys_aux_In (seen l : list string) (x : string) :
  In x (Py.fromkeys_aux seen l) <-> In x l /\ ~ In x seen.
Proof.
  revert seen. induction l as [|y l IH]; intros seen; simpl.
  - tauto.
  - destruct (Py.mem y seen) eqn:E.
    + apply mem_In in E. rewrite IH. split.
      * tauto.
      * intros [[-> | H] N]; tauto.
    + apply mem_false in E. simpl. rewrite IH. simpl. split.
      * intros [-> | [H N]]; tauto.
      * intros [[-> | H] N]; [tauto|].
        destruct (string_dec y x); [tauto|]. right. tauto.
Qed.

Lemma fromkeys_aux_NoDup (seen l : list string) :
  NoDup (Py.fromkeys_aux seen l).
Proof.
  revert seen. induction l as [|y l IH]; intros seen; simpl.
  - constructor.
  - destruct (Py.mem y seen); [apply IH|].
    constructor; [|apply IH].
    rewrite fromkeys_aux_In. simpl. tauto.
Qed.

Lemma fromkeys_In (l : list string) (x : string) :
  In x (Py.fromkeys l) <-> In x l.
Proof. unfold Py.fromkeys. rewrite fromkeys_aux_In. simpl. tauto. Qed.

Lemma fromkeys_NoDup (l : list string) : NoDup (Py.fromkeys l).
Proof. apply fromkeys_aux_NoDup. Qed.

Lemma iter_first_nodup (l : list string) : NoDup (iter_first l).
Proof. apply fromkeys_NoDup. Qed.

Lemma iter_first_elems (l : list string) (x : string) :
  In x (iter_first l) <-> In x l.
Proof. apply fromkeys_In. Qed.

Lemma iter_last_nodup (l : list string) : NoDup (iter_last l).
Proof. apply NoDup_rev, fromkeys_NoDup. Qed.

Lemma iter_last_elems (l : list string) (x : string) :
  In x (iter_last l) <-> In x l.
Proof. unfold iter_last. rewrite <- in_rev. apply fromkeys_In. Qed.

Lemma set_add_In (x y : string) (l : list string) :
  In y (Py.set_add x l) <-> y = x \/ In y l.
Proof.
  unfold Py.set_add. destruct (Py.mem x l) eqn:E.
  - apply mem_In in E. split; [tauto | intros [-> | H]; assumption].
  - rewrite in_app_iff. simpl. split; intros H; intuition congruence.
Qed.

Lemma set_add_fresh (x : string) (l : list string) :
  ~ In x l -> Py.set_add x l = (l ++ [x])%list.
Proof.
  intros H. unfold Py.set_add. apply mem_false in H. now rewrite H.
Qed.

Lemma get_None {V} (k : string) (d : list (string * V)) :
  Py.get k d = None <-> ~ In k (keys d).
Proof.
  induction d as [|[k' v] d IH]; simpl.
  - tauto.
  - destruct (String.eqb k k') eqn:E.
    + apply String.eqb_eq in E. subst. split; [discriminate | tauto].
    + apply String.eqb_neq in E. rewrite IH. split.
      * intros H [H1 | H1]; [congruence | tauto].
      * tauto.
Qed.

Lemma get_In {V} (k : string) (v : V) (d : list (string * V)) :
  Py.get k d = Some v -> In (k, v) d.
Proof.
  induction d as [|[k' v'] d IH]; simpl; [discriminate|].
  destruct (String.eqb k k') eqn:E.
  - apply String.eqb_eq in E. intros [= ->]. left. now subst.
  - auto.
Qed.

Lemma set_item_fresh {V} (k : string) (v : V) (d : list (string * V)) :
  ~ In k (keys d) -> Py.set_item k v d = (d ++ [(k, v)])%list.
Proof.
  induction d as [|[k' v'] d IH]; simpl; intros H; [reflexivity|].
  destruct (String.eqb k k') eqn:E.
  - apply String.eqb_eq in E. subst. tauto.
  - rewrite IH; [reflexivity | tauto].
Qed.

Lemma set_item_values {V} (k : string) (v w : V) (d : list (string * V)) :
  In w (map snd (Py.set_item k v d)) -> w = v \/ In w (map snd d).
Proof.
  induction d as [|[k' v'] d IH]; simpl.
  - intros [H | []]. now left.
  - destruct (String.eqb k k'); simpl.
    + intros [H | H]; [now left | tauto].
    + intros [H | H]; [tauto | apply IH in H; tauto].
Qed.

Lemma set_item_values_NoDup {V} (k : string) (v : V) (d : list (string * V)) :
  NoDup (map snd d) -> ~ In v (map snd d) ->
  NoDup (map snd (Py.set_item k v d)).
Proof.
  induction d as [|[k' v'] d IH]; simpl; intros ND NI.
  - constructor; [tauto | constructor].
  - inversion ND as [|? ? N1 N2]; subst.
    destruct (String.eqb k k'); simpl.
    + constructor; [tauto | assumption].
    + constructor.
      * intros H. apply set_item_values in H. destruct H; [subst|]; tauto.
      * apply IH; tauto.
Qed.

Lemma get_set_item_other {V} (k k' : string) (v : V) (d : list (string * V)) :
  k <> k' -> Py.get k (Py.set_item k' v d) = Py.get k d.
Proof.
  intros N. induction d as [|[k0 v0] d IH]; simpl.
  - apply String.eqb_neq in N. now rewrite N.
  - destruct (String.eqb k' k0) eqn:E; simpl.
    + apply String.eqb_eq in E. subst k0.
      apply String.eqb_neq in N. now rewrite N.
    + destruct (String.eqb k k0); [reflexivity | assumption].
Qed.

Lemma get_set_item_same {V} (k : string) (v : V) (d : list (string * V)) :
  Py.get k (Py.set_item k v d) = Some v.
Proof.
  induction d as [|[k0 v0] d IH]; simpl.
  - now rewrite String.eqb_refl.
  - destruct (String.eqb k k0) eqn:E; simpl.
    + now rewrite String.eqb_refl.
    + now rewrite E.
Qed.

(** ** The assignment loop *)

(** What [next(...)] finds is an entry of the ranked list whose header is
    still free. *)
Lemma find_free (chosen : list string) (ranked : list entry) (best : entry) :
  find (fun s => negb (Py.mem (header s) chosen)) ranked = Some best ->
  In best ranked /\ ~ In (header best) chosen.
Proof.
  intros H. apply find_some in H. destruct H as [H1 H2]. split; [assumption|].
  apply mem_false. now apply negb_true_iff.
Qed.

(** The loop keeps [claims_ok]. *)
Lemma assign_step_claims_ok (t : Z) (st : Mapping * list string)
  (fr : string * list entry) :
  claims_ok st -> claims_ok (assign_step t st fr).
Proof.
  destruct st as [m c], fr as [f ranked]. intros [ND Sub]. simpl in *.
  destruct (find _ ranked) as [best|] eqn:F; [|split; assumption].
  destruct (t <=? score best); [|split; assumption].
  apply find_free in F. destruct F as [_ Free]. split; simpl.
  - apply set_item_values_NoDup; [assumption|]. intros H. apply Free, Sub, H.
  - intros h H. apply set_add_In. apply set_item_values in H.
    destruct H; [now left | right; now apply Sub].
Qed.

Lemma assign_loop_claims_ok (t : Z) (scores : Scores)
  (st : Mapping * list string) :
  claims_ok st -> claims_ok (assign_loop t scores st).
Proof.
  revert st. induction scores as [|fr scores IH]; intros st H; simpl.
  - assumption.
  - apply IH, assign_step_claims_ok, H.
Qed.

Lemma assign_NoDup (t : Z) (scores : Scores) :
  NoDup (map snd (assign t scores)).
Proof.
  apply (assign_loop_claims_ok t scores ([], [])).
  split; simpl; [constructor | tauto].
Qed.

(** *** Raising the threshold *)

Lemma find_narrow {A} (P1 P2 : A -> bool) (l : list A) (b : A) :
  (forall x, P1 x = true -> P2 x = true) ->
  find P2 l = Some b -> P1 b = true -> find P1 l = Some b.
Proof.
  intros Imp. induction l as [|x l IH]; simpl; [discriminate|].
  destruct (P2 x) eqn:E2.
  - intros [= ->] H1. now rewrite H1.
  - intros F H1. destruct (P1 x) eqn:E1.
    + apply Imp in E1. congruence.
    + now apply IH.
Qed.

Lemma assign_step_chosen_grows (t : Z) (st : Mapping * list string)
  (fr : string * list entry) (h : string) :
  In h (snd st) -> In h (snd (assign_step t st fr)).
Proof.
  destruct st as [m c], fr as [f ranked]. simpl.
  destruct (find _ ranked) as [best|]; [|trivial].
  destruct (t <=? score best); [|trivial].
  simpl. intros H. apply set_add_In. now right.
Qed.

(** With a higher threshold the chosen headers stay among those chosen with
    the lower one. *)
Lemma assign_step_chosen_incl (t1 t2 : Z) (st1 st2 : Mapping * list string)
  (fr : string * list entry) :
  t1 <= t2 ->
  incl (snd st2) (snd st1) ->
  incl (snd (assign_step t2 st2 fr)) (snd (assign_step t1 st1 fr)).
Proof.
  intros Le Sub h H.
  destruct st2 as [m2 c2], fr as [f ranked]. simpl in H, Sub.
  destruct (find (fun s => negb (Py.mem (header s) c2)) ranked) as [b2|] eqn:F2;
    [|apply assign_step_chosen_grows, Sub, H].
  destruct (t2 <=? score b2) eqn:T2;
    [|apply assign_step_chosen_grows, Sub, H].
  simpl in H. apply set_add_In in H. destruct H as [-> | H];
    [|apply assign_step_chosen_grows, Sub, H].
  destruct st1 as [m1 c1]. simpl in Sub.
  destruct (Py.mem (header b2) c1) eqn:M1.
  - apply (assign_step_chosen_grows t1 (m1, c1) (f, ranked)). simpl.
    now apply mem_In.
  - simpl.
    rewrite (find_narrow (fun s => negb (Py.mem (header s) c1))
               (fun s => negb (Py.mem (header s) c2)) ranked b2);
      [ | | exact F2 | now rewrite M1 ].
    + apply Z.leb_le in T2. replace (t1 <=? score b2) with true
        by (symmetry; apply Z.leb_le; lia).
      simpl. apply set_add_In. now left.
    + intros x Hx. apply negb_true_iff in Hx. apply negb_true_iff.
      apply mem_false. apply mem_false in Hx. intros Hin. apply Hx, Sub, Hin.
Qed.

(** The loop keeps [balanced]. *)
Lemma assign_step_balanced (t : Z) (st : Mapping * list string)
  (fr : string * list entry) (todo : Scores) :
  NoDup (keys (fr :: todo)) ->
  balanced st (fr :: todo) -> balanced (assign_step t st fr) todo.
Proof.
  intros ND (NDc & Len & Fresh & Mir).
  destruct st as [m c], fr as [f ranked]. simpl in *.
  inversion ND as [|? ? Nf NDt]; subst.
  assert (Keep : balanced (m, c) todo).
  { repeat split; simpl; try assumption; try apply Mir.
    intros k Hk Hin. apply (Fresh k Hk). now right. }
  destruct (find _ ranked) as [best|] eqn:F; [|exact Keep].
  destruct (t <=? score best); [|exact Keep].
  apply find_free in F. destruct F as [_ Free].
  assert (Nm : ~ In f (keys m)) by (intros H; apply (Fresh f H); now left).
  rewrite (set_item_fresh f _ m Nm), (set_add_fresh _ c Free).
  split; [|split; [|split]]; simpl.
  - apply NoDup_app; [assumption | constructor; [tauto | constructor] |].
    intros x Hx [<- | []]. tauto.
  - rewrite !length_app. simpl. lia.
  - intros k Hk Hin. unfold keys in Hk. rewrite map_app, in_app_iff in Hk.
    simpl in Hk. destruct Hk as [Hk | [<- | []]]; [|tauto].
    apply (Fresh k Hk). now right.
  - intros h. rewrite map_app, !in_app_iff. simpl. rewrite (Mir h). tauto.
Qed.

Lemma balanced_init (todo : Scores) : balanced ([], []) todo.
Proof. repeat split; simpl; try tauto. constructor. Qed.

Lemma assign_loop_balanced (t : Z) (todo rest : Scores)
  (st : Mapping * list string) :
  NoDup (keys (todo ++ rest)%list) ->
  balanced st (todo ++ rest)%list -> balanced (assign_loop t todo st) rest.
Proof.
  revert st. induction todo as [|fr todo IH]; intros st ND B; simpl.
  - exact B.
  - apply IH.
    + now inversion ND.
    + now apply assign_step_balanced.
Qed.

Lemma assign_loop_monotone (t1 t2 : Z) (todo : Scores)
  (st1 st2 : Mapping * list string) :
  t1 <= t2 ->
  NoDup (keys todo) ->
  balanced st1 todo -> balanced st2 todo ->
  incl (snd st2) (snd st1) ->
  (List.length (fst (assign_loop t2 todo st2))
   <= List.length (fst (assign_loop t1 todo st1)))%nat.
Proof.
  intros Le. revert st1 st2.
  induction todo as [|fr todo IH]; intros st1 st2 ND B1 B2 Sub; simpl.
  - destruct B1 as (_ & L1 & _), B2 as (N2 & L2 & _).
    rewrite L1, L2. now apply NoDup_incl_length.
  - apply IH.
    + now inversion ND.
    + now apply assign_step_balanced.
    + now apply assign_step_balanced.
    + now apply assign_step_chosen_incl.
Qed.

Lemma assign_monotone (t1 t2 : Z) (scores : Scores) :
  t1 <= t2 -> NoDup (keys scores) ->
  (List.length (assign t2 scores) <= List.length (assign t1 scores))%nat.
Proof.
  intros Le ND. unfold assign.
  apply assign_loop_monotone; try assumption; try apply balanced_init.
  intros x [].
Qed.

(** ** The ranked lists *)

Lemma insert_desc_perm (x : entry) (l : list entry) :
  Permutation (insert_desc x l) (x :: l).
Proof.
  induction l as [|y l IH]; simpl.
  - apply Permutation_refl.
  - destruct (score x <? score y).
    + eapply perm_trans; [apply perm_skip, IH | apply perm_swap].
    + apply Permutation_refl.
Qed.

Lemma sorted_desc_perm (l : list entry) : Permutation (sorted_desc l) l.
Proof.
  induction l as [|x l IH]; simpl.
  - constructor.
  - eapply perm_trans; [apply insert_desc_perm | now apply perm_skip].
Qed.

Lemma insert_desc_sorted (x : entry) (l : list entry) :
  StronglySorted desc l -> StronglySorted desc (insert_desc x l).
Proof.
  induction l as [|y l IH]; simpl; intros S.
  - repeat constructor.
  - inversion S as [|? ? S' All]; subst.
    destruct (score x <? score y) eqn:E.
    + apply Z.ltb_lt in E. constructor; [now apply IH|].
      apply (Permutation_Forall (x := x :: l)).
      * symmetry. apply insert_desc_perm.
      * constructor; [unfold desc; lia | assumption].
    + apply Z.ltb_ge in E. constructor; [assumption|].
      constructor; [exact E|].
      eapply Forall_impl; [|exact All]. unfold desc. intros a Ha. lia.
Qed.

Lemma sorted_desc_sorted (l : list entry) : StronglySorted desc (sorted_desc l).
Proof.
  induction l as [|x l IH]; simpl.
  - constructor.
  - now apply insert_desc_sorted.
Qed.

(** The sort is stable. *)
Lemma insert_desc_stable (v : Z) (x : entry) (l : list entry) :
  with_score v (insert_desc x l) = with_score v (x :: l).
Proof.
  unfold with_score. induction l as [|y l IH]; simpl; [reflexivity|].
  destruct (score x <? score y) eqn:E; [|reflexivity].
  apply Z.ltb_lt in E. simpl. rewrite IH. simpl.
  destruct (score x =? v) eqn:Ex; [|reflexivity].
  apply Z.eqb_eq in Ex.
  replace (score y =? v) with false by (symmetry; apply Z.eqb_neq; lia).
  reflexivity.
Qed.

Lemma sorted_desc_stable (v : Z) (l : list entry) :
  with_score v (sorted_desc l) = with_score v l.
Proof.
  induction l as [|x l IH]; simpl; [reflexivity|].
  rewrite insert_desc_stable. unfold with_score in *. simpl. now rewrite IH.
Qed.

Lemma scored_headers (f : string) (al : list string)
  (fl : list (string * list string)) (headers : list string) :
  map header (scored f al fl headers) = headers.
Proof.
  unfold scored. rewrite map_map. simpl. apply map_id.
Qed.

Lemma score_table_keys (table : AliasTable) (fl : list (string * list string))
  (headers : list string) :
  keys (score_table table fl headers) = keys table.
Proof.
  unfold keys, score_table. rewrite map_map. reflexivity.
Qed.

Lemma score_table_In (table : AliasTable) (fl : list (string * list string))
  (headers : list string) (f : string) (ranked : list entry) :
  In (f, ranked) (score_table table fl headers) ->
  exists al, In (f, al) table /\ ranked = sorted_desc (scored f al fl headers).
Proof.
  unfold score_table. rewrite in_map_iff. intros ([f' al] & E & H).
  simpl in E. injection E as <- <-. now exists al.
Qed.

(** ** Slices *)

Lemma slice_to_nonneg {A} (k : Z) (l : list A) :
  0 <= k -> Py.slice_to k l = firstn (Nat.min (Z.to_nat k) (List.length l)) l.
Proof.
  intros H. unfold Py.slice_to.
  replace (k <? 0) with false by (symmetry; apply Z.ltb_ge; lia).
  destruct (Nat.le_ge_cases (Z.to_nat k) (List.length l)) as [L | L].
  - now rewrite Nat.min_l.
  - rewrite Nat.min_r by assumption.
    now rewrite firstn_all, firstn_all2.
Qed.

Lemma firstn_sorted {A} (R : A -> A -> Prop) (n : nat) (l : list A) :
  StronglySorted R l -> StronglySorted R (firstn n l).
Proof.
  revert n. induction l as [|x l IH]; intros n S.
  - rewrite firstn_nil. constructor.
  - destruct n; simpl; [constructor|].
    inversion S as [|? ? S' All]; subst. constructor; [now apply IH|].
    rewrite Forall_forall in *. intros y Hy. apply All.
    rewrite <- (firstn_skipn n l). apply in_or_app. now left.
Qed.

(** ** The normaliser is idempotent *)

Ltac by_cases_on_char c :=
  destruct c as [[] [] [] [] [] [] [] []]; vm_compute; try reflexivity;
  try discriminate; try tauto.

Lemma to_lower_not_upper (c : ascii) : Py.is_upper (Py.to_lower c) = false.
Proof. by_cases_on_char c. Qed.

Lemma to_lower_sep (c : ascii) : is_sep (Py.to_lower c) = is_sep c.
Proof. by_cases_on_char c. Qed.

Lemma to_lower_space (c : ascii) : Py.is_space (Py.to_lower c) = Py.is_space c.
Proof. by_cases_on_char c. Qed.

Lemma to_lower_fix (c : ascii) : Py.is_upper c = false -> Py.to_lower c = c.
Proof. unfold Py.to_lower. now intros ->. Qed.

Lemma tidy_weaken (b : bool) (s : string) : tidy b s -> tidy false s.
Proof.
  destruct s; simpl; [trivial|]. intros (P & _ & T).
  split; [exact P | split; [discriminate | exact T]].
Qed.

Lemma squeeze_sep_clean (b : bool) (s : string) :
  Py.all_chars (fun c => negb (is_sep c)) (squeeze is_sep b s) = true.
Proof.
  revert b. induction s as [|c s IH]; intros b; simpl; [reflexivity|].
  destruct (is_sep c) eqn:E.
  - destruct b; simpl; apply IH.
  - simpl. rewrite E. simpl. apply IH.
Qed.

Lemma lower_squeeze_tidy (b : bool) (s : string) :
  Py.all_chars (fun c => negb (is_sep c)) s = true ->
  tidy b (Py.lower (squeeze Py.is_space b s)).
Proof.
  revert b. induction s as [|c s IH]; intros b; simpl; [trivial|].
  intros H. apply andb_true_iff in H. destruct H as [Hc Hs].
  apply negb_true_iff in Hc.
  destruct (Py.is_space c) eqn:E.
  - destruct b; [now apply IH|]. simpl.
    repeat split; try discriminate; try reflexivity. now apply IH.
  - simpl. rewrite to_lower_space, E.
    repeat split.
    + apply to_lower_not_upper.
    + now rewrite to_lower_sep.
    + rewrite to_lower_space, E. discriminate.
    + now apply IH.
Qed.

Lemma lstrip_tidy (b : bool) (s : string) : tidy b s -> tidy true (Py.lstrip s).
Proof.
  revert b. induction s as [|c s IH]; intros b; simpl; [trivial|].
  intros (P & Hb & T). destruct (Py.is_space c) eqn:E.
  - now apply (IH true).
  - simpl. rewrite E. split; [exact P | split; [reflexivity | exact T]].
Qed.

Lemma rstrip_tidy (b : bool) (s : string) : tidy b s -> tidy b (Py.rstrip s).
Proof.
  revert b. induction s as [|c s IH]; intros b; simpl; [trivial|].
  intros (P & Hb & T). apply IH in T.
  destruct (Py.rstrip s) as [|d r].
  - destruct (Py.is_space c) eqn:E; simpl; [trivial|]. rewrite E. tauto.
  - simpl in *. tauto.
Qed.

Lemma rstrip_idem (s : string) : Py.rstrip (Py.rstrip s) = Py.rstrip s.
Proof.
  induction s as [|c s IH]; simpl; [reflexivity|].
  destruct (Py.rstrip s) as [|d r] eqn:R.
  - destruct (Py.is_space c) eqn:E; simpl; [reflexivity|]. now rewrite E.
  - simpl in *. rewrite IH. reflexivity.
Qed.

Lemma norm_normal (s : string) : normal (norm s).
Proof.
  unfold norm, normal, Py.strip. split.
  - apply rstrip_tidy. eapply lstrip_tidy.
    apply (lower_squeeze_tidy false). apply squeeze_sep_clean.
  - apply rstrip_idem.
Qed.

Lemma tidy_lstrip (s : string) : tidy true s -> Py.lstrip s = s.
Proof.
  destruct s as [|c s]; simpl; [reflexivity|].
  intros (_ & Hb & _). now rewrite Hb.
Qed.

Lemma tidy_split_camel (b : bool) (s : string) : tidy b s -> split_camel s = s.
Proof.
  revert b. induction s as [|c s IH]; intros b; simpl; [reflexivity|].
  intros (P & _ & T). rewrite (IH _ T).
  destruct s as [|d s']; [reflexivity|].
  destruct T as ((U & _) & _). rewrite U, andb_false_r. reflexivity.
Qed.

Lemma tidy_squeeze_sep (b b' : bool) (s : string) :
  tidy b s -> squeeze is_sep b' s = s.
Proof.
  revert b b'. induction s as [|c s IH]; intros b b'; simpl; [reflexivity|].
  intros ((_ & S & _) & _ & T). rewrite S. f_equal. now apply (IH _ _ T).
Qed.

Lemma tidy_squeeze_space (b : bool) (s : string) :
  tidy b s -> squeeze Py.is_space b s = s.
Proof.
  revert b. induction s as [|c s IH]; intros b; simpl; [reflexivity|].
  intros ((_ & _ & Sp) & Hb & T). destruct (Py.is_space c) eqn:E.
  - destruct b; [specialize (Hb eq_refl); discriminate|].
    rewrite (Sp eq_refl). f_equal. now apply IH.
  - f_equal. now apply IH.
Qed.

Lemma tidy_lower (b : bool) (s : string) : tidy b s -> Py.lower s = s.
Proof.
  revert b. induction s as [|c s IH]; intros b; simpl; [reflexivity|].
  intros ((U & _) & _ & T). rewrite (to_lower_fix c U). f_equal.
  now apply (IH _ T).
Qed.

Lemma normal_fixed (s : string) : normal s -> norm s = s.
Proof.
  intros [T R]. unfold norm, Py.strip.
  rewrite (tidy_lstrip s T), R, (tidy_split_camel _ s T),
    (tidy_squeeze_sep _ false s T),
    (tidy_squeeze_space false s (tidy_weaken _ s T)),
    (tidy_lower _ s T), (tidy_lstrip s T).
  exact R.
Qed.

Lemma norm_idem (s : string) : norm (norm s) = norm s.
Proof. apply normal_fixed, norm_normal. Qed.

(** ** The edit distance is at most the longer length *)

Lemma range_ok (j n : nat) : row_ok 0 (Z.of_nat j) (map Z.of_nat (seq j n)).
Proof.
  revert j. induction n as [|n IH]; intros j; simpl; [trivial|]. split.
  - lia.
  - replace (Z.of_nat j + 1) with (Z.of_nat (S j)) by lia. apply IH.
Qed.

Lemma fill_row_ok (ai : ascii) (B : string) (prev : list Z) (left i j : Z) :
  1 <= i -> 1 <= j ->
  row_ok (i - 1) (j - 1) prev ->
  0 <= left <= Z.max i (j - 1) ->
  row_ok i j (fill_row ai B prev left).
Proof.
  revert prev left j. induction B as [|bj B IH]; intros prev left j Hi Hj P L.
  - simpl. trivial.
  - destruct prev as [|pd [|pu prev']]; simpl; trivial.
    simpl in P. destruct P as (Pd & Pu & P').
    replace (j - 1 + 1) with j in * by lia.
    assert (C : 0 <= (if Ascii.eqb ai bj then 0 else 1) <= 1)
      by (destruct (Ascii.eqb ai bj); lia).
    split; [lia|].
    apply IH; try lia.
    replace (j + 1 - 1) with j by lia. simpl. tauto.
Qed.

Lemma fill_row_length (ai : ascii) (B : string) (prev : list Z) (left : Z) :
  List.length prev = S (String.length B) ->
  List.length (fill_row ai B prev left) = String.length B.
Proof.
  revert prev left. induction B as [|bj B IH]; intros prev left H.
  - destruct prev as [|? [|? ?]]; reflexivity.
  - destruct prev as [|pd [|pu prev']]; simpl in H; try discriminate.
    simpl. f_equal. apply IH. simpl. lia.
Qed.

Lemma next_row_ok (i : Z) (ai : ascii) (B : string) (prev : list Z) :
  1 <= i -> row_ok (i - 1) 0 prev -> row_ok i 0 (next_row i ai B prev).
Proof.
  intros Hi P. unfold next_row. simpl. split; [lia|].
  apply fill_row_ok; try lia. exact P.
Qed.

Lemma dp_rows_ok (A B : string) (i : Z) (prev : list Z) :
  1 <= i ->
  row_ok (i - 1) 0 prev ->
  List.length prev = S (String.length B) ->
  row_ok (i - 1 + len A) 0 (dp_rows A B i prev)
  /\ List.length (dp_rows A B i prev) = S (String.length B).
Proof.
  revert i prev. induction A as [|ai A IH]; intros i prev Hi P L.
  - simpl. unfold len. simpl. rewrite Z.add_0_r. tauto.
  - simpl dp_rows.
    replace (i - 1 + len (String ai A)) with (i + 1 - 1 + len A)
      by (unfold len; simpl String.length; lia).
    apply IH.
    + lia.
    + replace (i + 1 - 1) with i by lia. now apply next_row_ok.
    + unfold next_row. simpl. f_equal. now apply fill_row_length.
Qed.

Lemma row_ok_nth (i j : Z) (row : list Z) (n : nat) :
  (n < List.length row)%nat -> row_ok i j row ->
  0 <= nth n row 0 <= Z.max i (j + Z.of_nat n).
Proof.
  revert j n. induction row as [|x r IH]; intros j n Hn P; simpl in Hn; [lia|].
  destruct P as [Px Pr]. destruct n as [|n]; simpl nth.
  - simpl. rewrite Z.add_0_r. exact Px.
  - replace (j + Z.of_nat (S n)) with (j + 1 + Z.of_nat n) by lia.
    apply IH; [lia | exact Pr].
Qed.

Lemma edit_distance_bounds (a b : string) :
  0 <= edit_distance a b <= Z.max (len (norm a)) (len (norm b)).
Proof.
  unfold edit_distance.
  assert (Ha : 0 <= len (norm a)) by (unfold len; lia).
  assert (Hb : 0 <= len (norm b)) by (unfold len; lia).
  destruct (len (norm a) =? 0) eqn:Ea; [lia|].
  destruct (len (norm b) =? 0) eqn:Eb; [lia|].
  destruct (dp_rows_ok (norm a) (norm b) 1 (range (String.length (norm b) + 1)))
    as [R L].
  - lia.
  - apply (range_ok 0).
  - unfold range. rewrite length_map, length_seq. lia.
  - assert (N := row_ok_nth _ _ _ (String.length (norm b))
                    (eq_ind_r (fun k => (_ < k)%nat) (Nat.lt_succ_diag_r _) L) R).
    unfold len in *. lia.
Qed.

(** ** Rationals *)

Lemma Qdiv_unit_interval (d m : Z) :
  0 <= d <= m -> 1 <= m -> (0 <= inject_Z d / inject_Z m <= 1)%Q.
Proof.
  intros Hd Hm.
  assert (Pm : (0 < inject_Z m)%Q) by (unfold Qlt; simpl; lia).
  split.
  - apply Qle_shift_div_l; [exact Pm|]. rewrite Qmult_0_l.
    unfold Qle. simpl. lia.
  - apply Qle_shift_div_r; [exact Pm|]. rewrite Qmult_1_l.
    rewrite <- Zle_Qle. lia.
Qed.

Lemma fuzzy_score_range (h alias : string) :
  (0 <= fuzzy_score h alias <= 1)%Q.
Proof.
  unfold fuzzy_score.
  destruct (String.eqb (norm h) (norm alias)); [split; discriminate|].
  pose proof (edit_distance_bounds (norm h) (norm alias)) as D.
  rewrite !norm_idem in D.
  set (d := edit_distance (norm h) (norm alias)) in *.
  set (m := Z.max (len (norm h)) (len (norm alias))) in *.
  assert (Hm : 0 <= m) by (unfold m, len; lia).
  assert (U : (0 <= inject_Z d / inject_Z (if m =? 0 then 1 else m) <= 1)%Q).
  { apply Qdiv_unit_interval; destruct (m =? 0) eqn:E; lia. }
  destruct U as [U0 U1]. split.
  - apply (Qplus_le_l _ _ (inject_Z d / inject_Z (if m =? 0 then 1 else m))).
    ring_simplify. exact U1.
  - apply (Qplus_le_l _ _ (inject_Z d / inject_Z (if m =? 0 then 1 else m))).
    ring_simplify.
    apply (Qplus_le_r _ _ (-(1))). ring_simplify. exact U0.
Qed.

Lemma max_from_ge (best : Q) (l : list Q) :
  (best <= Py.max_from best l)%Q
  /\ forall x, In x l -> (x <= Py.max_from best l)%Q.
Proof.
  revert best. induction l as [|y l IH]; intros best; simpl.
  - split; [apply Qle_refl | tauto].
  - destruct (Qlt_le_dec best y) as [L | L];
      destruct (IH y) as [I1 I2]; destruct (IH best) as [J1 J2]; split.
    + apply Qlt_le_weak in L. now apply Qle_trans with y.
    + intros x [<- | H]; [exact I1 | now apply I2].
    + exact J1.
    + intros x [<- | H]; [now apply Qle_trans with best | now apply J2].
Qed.

Lemma max_default_ge (l : list Q) (dflt x : Q) :
  In x l -> (x <= Py.max_default l dflt)%Q.
Proof.
  destruct l as [|y l]; simpl; [tauto|].
  intros [<- | H].
  - apply (proj1 (max_from_ge y l)).
  - apply (proj2 (max_from_ge y l)), H.
Qed.

Lemma round_ge (z : Z) (x : Q) : (inject_Z z <= x)%Q -> z <= Py.round x.
Proof.
  intros H. apply Qfloor_resp_le in H. rewrite Qfloor_Z in H.
  unfold Py.round. cbv zeta.
  destruct (Qcompare _ _); [destruct (Z.even _)| |]; lia.
Qed.

Lemma filter_none {A} (p : A -> bool) (l : list A) :
  (forall x, In x l -> p x = false) -> filter p l = [].
Proof.
  induction l as [|x l IH]; intros H; simpl; [reflexivity|].
  rewrite (H x) by now left. apply IH. intros y Hy. apply H. now right.
Qed.

Lemma jaccard_same (l : list string) : (jaccard l l == 1)%Q.
Proof.
  destruct l as [|x l]; [reflexivity|].
  unfold jaccard. set (s := x :: l).
  assert (I : Py.inter s s = s).
  { unfold Py.inter. apply forallb_filter_id, forallb_forall.
    intros y Hy. now apply mem_In. }
  assert (U : Py.union s s = s).
  { unfold Py.union. rewrite filter_none; [apply app_nil_r|].
    intros y Hy. apply negb_false_iff. now apply mem_In. }
  rewrite I, U. unfold size, s. simpl List.length.
  replace (Z.of_nat (S (List.length l)) =? 0) with false
    by (symmetry; apply Z.eqb_neq; lia).
  apply Qmult_inv_r. unfold Qeq. simpl. lia.
Qed.

(** ** A header that normalises to an alias *)

Lemma tokens_norm (a h : string) : norm a = norm h -> tokens a = tokens h.
Proof. unfold tokens. now intros ->. Qed.

Lemma fuzzy_score_exact (h a : string) :
  norm a = norm h -> fuzzy_score h a = 1%Q.
Proof.
  intros E. unfold fuzzy_score. rewrite E, String.eqb_refl. reflexivity.
Qed.

Lemma score_pair_exact (field : string) (alias_list flags : list string)
  (h a : string) :
  In a alias_list -> norm a = norm h ->
  180 <= score_pair field alias_list flags h.
Proof.
  intros Hin E. unfold score_pair.
  assert (X : existsb (fun a0 => String.eqb (norm a0) (norm h)) alias_list = true).
  { apply existsb_exists. exists a. split; [exact Hin | now apply String.eqb_eq]. }
  rewrite X.
  assert (J : (1 <= Py.max_default
                      (map (fun a0 => jaccard (tokens h) (tokens a0)) alias_list) 0)%Q).
  { apply Qle_trans with (jaccard (tokens h) (tokens a)).
    - rewrite (tokens_norm a h E), jaccard_same. apply Qle_refl.
    - apply max_default_ge.
      apply (in_map (fun a0 => jaccard (tokens h) (tokens a0))), Hin. }
  assert (F : (1 <= Py.max_default
                      (map (fun a0 => fuzzy_score h a0) alias_list) 0)%Q).
  { rewrite <- (fuzzy_score_exact h a E) at 1.
    apply max_default_ge. apply (in_map (fun a0 => fuzzy_score h a0)), Hin. }
  destruct alias_list as [|a0 rest]; [destruct Hin|].
  set (jm := Py.max_default _ _) in *.
  set (fm := Py.max_default _ _) in *.
  apply round_ge.
  destruct (Py.mem field flags);
    destruct (String.eqb field "postal_code" && _)%bool;
    destruct (String.eqb field "phone" && _)%bool;
    destruct (String.eqb field "state" && _)%bool;
    change (inject_Z 180) with (180%Q); lra.
Qed.

Lemma scored_entry (f : string) (al : list string)
  (fl : list (string * list string)) (headers : list string) (e : entry) :
  In e (scored f al fl headers) ->
  In (header e) headers
  /\ score e = score_pair f al (Py.get_default (header e) fl []) (header e).
Proof.
  unfold scored. rewrite in_map_iff. intros (h & <- & H). simpl. tauto.
Qed.

Lemma ranked_entry (f : string) (al : list string)
  (fl : list (string * list string)) (headers : list string) (e : entry) :
  In e (sorted_desc (scored f al fl headers)) <-> In e (scored f al fl headers).
Proof.
  split; apply Permutation_in;
    [apply sorted_desc_perm | symmetry; apply sorted_desc_perm].
Qed.

(** ** First claim goes to the field that comes first *)

Lemma mem_ext (x : string) (a b : list string) :
  (forall h, In h a <-> In h b) -> Py.mem x a = Py.mem x b.
Proof.
  intros H. destruct (Py.mem x b) eqn:E.
  - apply mem_In. apply H. now apply mem_In.
  - apply mem_false. apply mem_false in E. intros Hin. apply E, H, Hin.
Qed.

Lemma find_ext {A} (p q : A -> bool) (l : list A) :
  (forall x, p x = q x) -> find p l = find q l.
Proof.
  intros H. induction l as [|x l IH]; simpl; [reflexivity|].
  rewrite H, IH. reflexivity.
Qed.

Lemma assign_step_get_other (t : Z) (st : Mapping * list string)
  (fr : string * list entry) (f : string) :
  f <> fst fr ->
  Py.get f (fst (assign_step t st fr)) = Py.get f (fst st).
Proof.
  destruct st as [m c], fr as [f' ranked]. simpl. intros N.
  destruct (find _ ranked) as [best|]; [|reflexivity].
  destruct (t <=? score best); [|reflexivity].
  simpl. now apply get_set_item_other.
Qed.

Lemma assign_loop_get_other (t : Z) (todo : Scores)
  (st : Mapping * list string) (f : string) :
  ~ In f (keys todo) ->
  Py.get f (fst (assign_loop t todo st)) = Py.get f (fst st).
Proof.
  revert st. induction todo as [|fr todo IH]; intros st N; simpl.
  - reflexivity.
  - simpl in N. rewrite IH by tauto.
    apply assign_step_get_other. intros E. apply N. now left.
Qed.

Lemma assign_greedy (t : Z) (pre post : Scores) (f : string)
  (ranked : list entry) :
  NoDup (keys (pre ++ (f, ranked) :: post)%list) ->
  Py.get f (assign t (pre ++ (f, ranked) :: post)%list)
  = claim t (map snd (assign t pre)) ranked.
Proof.
  intros ND. unfold assign, assign_loop. rewrite fold_left_app. simpl.
  fold (assign_loop t pre ([], [])).
  fold (assign_loop t post
          (assign_step t (assign_loop t pre ([], [])) (f, ranked))).
  assert (B : balanced (assign_loop t pre ([], [])) ((f, ranked) :: post)).
  { apply assign_loop_balanced; [exact ND | apply balanced_init]. }
  assert (Nf : ~ In f (keys post)).
  { unfold keys in ND. rewrite map_app in ND. apply NoDup_remove_2 in ND.
    intros H. apply ND. apply in_or_app. now right. }
  rewrite assign_loop_get_other by exact Nf.
  destruct (assign_loop t pre ([], [])) as [m c].
  destruct B as (_ & _ & Fresh & Mir). simpl in *.
  unfold claim.
  rewrite (find_ext (fun s => negb (Py.mem (header s) c))
             (fun s => negb (Py.mem (header s) (map snd m))))
    by (intros x; f_equal; apply mem_ext, Mir).
  assert (G : Py.get f m = None).
  { apply get_None. intros H. apply (Fresh f H). now left. }
  destruct (find _ ranked) as [best|]; [|exact G].
  destruct (t <=? score best); [|exact G].
  simpl. apply get_set_item_same.
Qed.

(** ** The content sniffer *)

Lemma sample_of_kept (values : list (option string)) :
  sample_of values = flat_map kept (firstn 50 values).
Proof. reflexivity. Qed.

Lemma kept_length (l : list (option string)) :
  (List.length (flat_map kept l) <= List.length l)%nat.
Proof.
  induction l as [|v l IH]; simpl; [lia|].
  rewrite length_app.
  assert (List.length (kept v) <= 1)%nat;
    [|lia].
  destruct v as [s|]; simpl; [|lia]. destruct (nonempty _); simpl; lia.
Qed.

Lemma sample_of_size (values : list (option string)) :
  0 <= size (sample_of values) <= 50.
Proof.
  unfold size. rewrite sample_of_kept.
  pose proof (kept_length (firstn 50 values)) as H.
  pose proof (firstn_le_length 50 values) as H'. lia.
Qed.

(** On the sample sizes that occur, [int(n * 0.6)] in binary64 arithmetic
    is the integer part of [3n/5], and [int(n * 0.2)] that of [n/5]. *)
Lemma int_times_f0_6 (n : Z) : 0 <= n <= 50 -> int_times n f0_6 = 3 * n / 5.
Proof.
  intros H.
  assert (T : forallb (fun k => int_times (Z.of_nat k) f0_6
                                =? 3 * Z.of_nat k / 5) (seq 0 51) = true)
    by (vm_compute; reflexivity).
  rewrite forallb_forall in T.
  specialize (T (Z.to_nat n)). rewrite Z2Nat.id in T by lia.
  apply Z.eqb_eq, T, in_seq. lia.
Qed.

Lemma int_times_f0_2 (n : Z) : 0 <= n <= 50 -> int_times n f0_2 = n / 5.
Proof.
  intros H.
  assert (T : forallb (fun k => int_times (Z.of_nat k) f0_2
                                =? Z.of_nat k / 5) (seq 0 51) = true)
    by (vm_compute; reflexivity).
  rewrite forallb_forall in T.
  specialize (T (Z.to_nat n)). rewrite Z2Nat.id in T by lia.
  apply Z.eqb_eq, T, in_seq. lia.
Qed.

Lemma count_raising_Ok (pred : string -> result bool) (sample : list string)
  (c : Z) :
  count_raising pred sample = Ok c -> c = count (holds pred) sample.
Proof.
  revert c. induction sample as [|v l IH]; intros c.
  - simpl. now intros [= <-].
  - cbn [count_raising]. unfold bind.
    destruct (pred v) as [b|] eqn:Ev; [|discriminate].
    destruct (count_raising pred l) as [c'|]; [|discriminate].
    intros H. assert (E : c = if b then 1 + c' else c') by congruence.
    specialize (IH c' eq_refl).
    unfold count, size in *. cbn [filter]. unfold holds at 1. rewrite Ev.
    destruct b; cbn [List.length]; lia.
Qed.

Lemma count_raising_total (pred : string -> result bool) (sample : list string) :
  Forall (fun v => exists b, pred v = Ok b) sample ->
  exists c, count_raising pred sample = Ok c.
Proof.
  induction 1 as [|v l [b Hb] _ [c Hc]]; simpl.
  - now exists 0.
  - rewrite Hb, Hc. simpl. eexists. reflexivity.
Qed.

Lemma count_bounds (pred : string -> bool) (sample : list string) :
  0 <= count pred sample <= size sample.
Proof.
  unfold count, size. pose proof (filter_length_le pred sample). lia.
Qed.

Lemma flag_if_In (b : bool) (name x : string) :
  In x (flag_if b name) <-> b = true /\ x = name.
Proof.
  destruct b; simpl; intuition congruence.
Qed.

(** What [sniff_type] returns when it returns. *)
Lemma sniff_type_Ok (values : list (option string)) (res : list string) :
  sniff_type values = Ok res ->
  size (sample_of values) <> 0 ->
  let sample := sample_of values in
  let n := size sample in
  count_raising lat_pred sample = Ok (count (holds lat_pred) sample)
  /\ count_raising lng_pred sample = Ok (count (holds lng_pred) sample)
  /\ forall x, In x res <->
       (Z.max 2 (int_times n f0_2) <= count email_match sample /\ x = "email")
       \/ (Z.max 2 (int_times n f0_2) <= count phone_search sample /\ x = "phone")
       \/ (Z.max 2 (int_times n f0_2) <= count url_match sample /\ x = "website")
       \/ (int_times n f0_6 <= count (holds lat_pred) sample /\ x = "lat")
       \/ (int_times n f0_6 <= count (holds lng_pred) sample /\ x = "lng").
Proof.
  intros H N. unfold sniff_type in H.
  apply Z.eqb_neq in N. rewrite N in H. cbv zeta in *.
  destruct (count_raising lat_pred (sample_of values)) as [c1|] eqn:E1;
    simpl in H; [|discriminate].
  destruct (count_raising lng_pred (sample_of values)) as [c2|] eqn:E2;
    simpl in H; [|discriminate].
  apply count_raising_Ok in E1, E2. subst c1 c2.
  injection H as <-. split; [reflexivity | split; [reflexivity|]].
  intros x. rewrite !in_app_iff, !flag_if_In, !Z.leb_le. tauto.
Qed.

Lemma all_chars_weaken (p q : ascii -> bool) (s : string) :
  (forall c, p c = true -> q c = true) ->
  Py.all_chars p s = true -> Py.all_chars q s = true.
Proof.
  intros Imp. induction s as [|c s IH]; simpl; [trivial|].
  rewrite !andb_true_iff. intros [H1 H2]. split; [now apply Imp | now apply IH].
Qed.

Lemma isdigit_all (s : string) :
  Py.isdigit s = true -> Py.all_chars Py.is_digit s = true.
Proof. destruct s; [discriminate | trivial]. Qed.

Lemma lstrip_char_all (p : ascii -> bool) (c : ascii) (s : string) :
  p c = true ->
  Py.all_chars p (Py.lstrip_char c s) = true -> Py.all_chars p s = true.
Proof.
  intros Pc. induction s as [|d s IH]; simpl; [trivial|].
  destruct (Ascii.eqb d c) eqn:E; [|trivial].
  apply Ascii.eqb_eq in E. subst d. intros H. rewrite Pc. now apply IH.
Qed.

Lemma remove_first_all (p : ascii -> bool) (c : ascii) (s : string) :
  p c = true ->
  Py.all_chars p (Py.remove_first c s) = true -> Py.all_chars p s = true.
Proof.
  intros Pc. induction s as [|d s IH]; simpl; [trivial|].
  destruct (Ascii.eqb d c) eqn:E.
  - apply Ascii.eqb_eq in E. subst d. intros ->. now rewrite Pc.
  - simpl. rewrite !andb_true_iff. intros [H1 H2]. split; [assumption|].
    now apply IH.
Qed.

(** A value that passes the digit test is made of digits, minus signs and
    points only: [py_float] covers every string [float] is applied to. *)
Lemma numeric_guard_alphabet (v : string) :
  numeric_guard v = true -> Py.all_chars decimal_char v = true.
Proof.
  unfold numeric_guard. intros H. apply isdigit_all in H.
  apply (remove_first_all _ "."); [reflexivity|].
  apply (lstrip_char_all _ "-"); [reflexivity|].
  eapply all_chars_weaken; [|exact H].
  intros c Hc. unfold decimal_char. now rewrite Hc.
Qed.

(** [sniff_type] returns whenever [float] reads every sample value that
    passes the digit test. *)
Lemma range_pred_total (lo hi : Z) (v : string) :
  parses v -> exists b, range_pred lo hi v = Ok b.
Proof.
  intros P. unfold range_pred. destruct (numeric_guard v) eqn:G.
  - destruct (P G) as [x ->]. simpl. eexists. reflexivity.
  - eexists. reflexivity.
Qed.

Lemma sniff_type_total (values : list (option string)) :
  Forall parses (sample_of values) -> exists res, sniff_type values = Ok res.
Proof.
  intros H. unfold sniff_type. cbv zeta.
  destruct (size (sample_of values) =? 0); [eexists; reflexivity|].
  destruct (count_raising_total lat_pred (sample_of values)) as [c1 ->].
  { eapply Forall_impl; [|exact H]. intros v. apply range_pred_total. }
  destruct (count_raising_total lng_pred (sample_of values)) as [c2 ->].
  { eapply Forall_impl; [|exact H]. intros v. apply range_pred_total. }
  simpl. eexists. reflexivity.
Qed.

Lemma mapM_total {A B} (f : A -> result B) (l : list A) :
  Forall (fun x => exists y, f x = Ok y) l -> exists ys, mapM f l = Ok ys.
Proof.
  induction 1 as [|x l [y Hy] _ [ys Hys]]; simpl.
  - eexists. reflexivity.
  - rewrite Hy. simpl. rewrite Hys. simpl. eexists. reflexivity.
Qed.

Section EngineProperties.

Variable set_iter : list string -> list string.
Hypothesis set_iter_nodup : forall l, NoDup (set_iter l).
Hypothesis set_iter_elems : forall l x, In x (set_iter l) <-> In x l.

Lemma auto_map_columns_Ok (headers : list string) (rows : list Row)
  (learned : option AliasTable) (t : Z) (m : Mapping) (scores : Scores) :
  auto_map_columns set_iter headers rows learned t = Ok (m, scores) ->
  exists sniff_flags,
    sniff_all headers rows = Ok sniff_flags
    /\ scores = score_table (all_aliases set_iter (or_empty learned))
                  sniff_flags headers
    /\ m = assign t scores.
Proof.
  unfold auto_map_columns. cbv zeta.
  destruct (sniff_all headers rows) as [fl|]; simpl; [|discriminate].
  intros [= <- <-]. exists fl. repeat split.
Qed.

(** The engine returns on every input whose cells [float] can read when
    they look numeric; the scores do not depend on the threshold. *)
Lemma auto_map_columns_returns (headers : list string) (rows : list Row)
  (learned : option AliasTable) (t : Z) :
  (forall h, In h headers ->
     Forall parses (sample_of (strs (samples_by_header headers rows h)))) ->
  exists m scores,
    auto_map_columns set_iter headers rows learned t = Ok (m, scores).
Proof.
  intros H. unfold auto_map_columns. cbv zeta.
  destruct (mapM_total
              (fun h => fl <- sniff_type (strs (samples_by_header headers rows h)) ;;
                        Ok (h, fl)) headers) as [fl E].
  { apply Forall_forall. intros h Hh.
    destruct (sniff_type_total _ (H h Hh)) as [res ->]. simpl.
    eexists. reflexivity. }
  unfold sniff_all. rewrite E. simpl. eexists. eexists. reflexivity.
Qed.

Lemma scores_any_threshold (headers : list string) (rows : list Row)
  (learned : option AliasTable) (t t' : Z) (m : Mapping) (scores : Scores) :
  auto_map_columns set_iter headers rows learned t = Ok (m, scores) ->
  auto_map_columns set_iter headers rows learned t'
  = Ok (assign t' scores, scores).
Proof.
  unfold auto_map_columns. cbv zeta.
  destruct (sniff_all headers rows) as [fl|]; simpl; [|discriminate].
  now intros [= <- <-].
Qed.

Lemma all_aliases_keys (learned : AliasTable) :
  keys (all_aliases set_iter learned)
  = set_iter (keys ALIASES ++ keys learned)%list.
Proof.
  unfold all_aliases, keys. rewrite map_map. simpl. apply map_id.
Qed.

Lemma scores_keys (headers : list string) (rows : list Row)
  (learned : option AliasTable) (t : Z) (m : Mapping) (scores : Scores) :
  auto_map_columns set_iter headers rows learned t = Ok (m, scores) ->
  keys scores = set_iter (keys ALIASES ++ keys (or_empty learned))%list.
Proof.
  intros H. apply auto_map_columns_Ok in H. destruct H as (fl & _ & -> & _).
  rewrite score_table_keys. apply all_aliases_keys.
Qed.

Lemma scores_ranked (headers : list string) (rows : list Row)
  (learned : option AliasTable) (t : Z) (m : Mapping) (scores : Scores)
  (f : string) (ranked : list entry) :
  auto_map_columns set_iter headers rows learned t = Ok (m, scores) ->
  In (f, ranked) scores ->
  exists sniff_flags,
    ranked = sorted_desc
               (scored f
                  (Py.fromkeys (Py.get_default f ALIASES []
                                ++ Py.get_default f (or_empty learned) [])%list)
                  sniff_flags headers).
Proof.
  intros H Hin. apply auto_map_columns_Ok in H.
  destruct H as (fl & _ & -> & _). exists fl.
  apply score_table_In in Hin. destruct Hin as (al & Hal & ->).
  unfold all_aliases in Hal. apply in_map_iff in Hal.
  destruct Hal as (k & E & _). injection E as -> <-. reflexivity.
Qed.

End EngineProperties.

(** * The specified properties *)

Example demo_run :
  auto_map_columns iter_first demo_headers demo_rows None 75
  = Ok (demo_mapping, demo_scores).
Proof. vm_compute. reflexivity. Qed.

Example demo_run_strict :
  auto_map_columns iter_first demo_headers demo_rows None 100
  = Ok ([("name", "businessName"); ("postal_code", "Zip")], demo_scores).
Proof. vm_compute. reflexivity. Qed.

Lemma get_default_In_keys (k a : string) (d : AliasTable) :
  In a (Py.get_default k d []) -> In k (keys d).
Proof.
  unfold Py.get_default. destruct (Py.get k d) as [l|] eqn:E; [|intros []].
  intros _. apply get_In in E. apply (in_map fst) in E. exact E.
Qed.

Lemma sorted_pairs (l : list entry) :
  StronglySorted desc l ->
  StronglySorted (fun a b : string * Z => snd b <= snd a)
    (map (fun r => (header r, score r)) l).
Proof.
  induction 1 as [|x l S IH All]; simpl; constructor; [exact IH|].
  apply Forall_map. exact All.
Qed.

Section Claims.

Variable set_iter : list string -> list string.
Hypothesis set_iter_nodup : forall l, NoDup (set_iter l).
Hypothesis set_iter_elems : forall l x, In x (set_iter l) <-> In x l.

(** C1.  In the mapping [auto_map_columns] returns, no header is the value
    of two canonical fields. *)
Theorem no_double_assignment (headers : list string) (rows : list Row)
  (learned : option AliasTable) (threshold : Z) (m : Mapping)
  (scores : Scores) :
  auto_map_columns set_iter headers rows learned threshold = Ok (m, scores) ->
  NoDup (map snd m).
Proof.
  intros H. apply auto_map_columns_Ok in H.
  destruct H as (fl & _ & _ & ->). apply assign_NoDup.
Qed.

(** C2.  On the same headers, rows and learned aliases, a higher threshold
    never yields a larger mapping. *)
Theorem threshold_monotone (headers : list string) (rows : list Row)
  (learned : option AliasTable) (t1 t2 : Z) (m1 m2 : Mapping)
  (s1 s2 : Scores) :
  t1 <= t2 ->
  auto_map_columns set_iter headers rows learned t1 = Ok (m1, s1) ->
  auto_map_columns set_iter headers rows learned t2 = Ok (m2, s2) ->
  (List.length m2 <= List.length m1)%nat.
Proof.
  intros Le H1 H2.
  pose proof (scores_keys _ _ _ _ _ _ _ H1) as K.
  rewrite (scores_any_threshold _ _ _ _ _ t2 _ _ H1) in H2.
  injection H2 as <- <-.
  apply auto_map_columns_Ok in H1. destruct H1 as (fl & _ & _ & ->).
  apply assign_monotone; [exact Le|]. rewrite K. apply set_iter_nodup.
Qed.

(** C6, as the code has it.  The Assigner takes the canonical fields in the
    iteration order of the merged alias table, which is the order in which
    the set of built-in and learned field names is enumerated: every such
    field once, in no order fixed by the tables.  A field receives the
    first header of its ranked list that no field before it in that order
    holds, when its score reaches the threshold. *)
Theorem assigner_follows_iteration_order (headers : list string)
  (rows : list Row) (learned : option AliasTable) (threshold : Z)
  (m : Mapping) (scores : Scores) :
  auto_map_columns set_iter headers rows learned threshold = Ok (m, scores) ->
  keys scores = set_iter (keys ALIASES ++ keys (or_empty learned))%list
  /\ NoDup (keys scores)
  /\ (forall f, In f (keys scores) <->
                In f (keys ALIASES) \/ In f (keys (or_empty learned)))
  /\ forall pre f ranked post,
       scores = (pre ++ (f, ranked) :: post)%list ->
       Py.get f m = claim threshold (map snd (assign threshold pre)) ranked.
Proof.
  intros H. pose proof (scores_keys _ _ _ _ _ _ _ H) as K.
  split; [exact K|]. split; [rewrite K; apply set_iter_nodup|].
  split.
  - intros f. rewrite K, set_iter_elems. apply in_app_iff.
  - intros pre f ranked post E.
    apply auto_map_columns_Ok in H. destruct H as (fl & _ & _ & ->).
    rewrite E. apply assign_greedy. rewrite <- E, K. apply set_iter_nodup.
Qed.

(** C7.  When the normalised header [h] equals the normalised form of an
    alias of field [f], built-in or learned, the score recorded for
    [(f, h)] is at least 100.  (The two maxima are then 1.0 and every
    partial sum is a small integer, so the binary64 computation of the
    source and the rational one of the model give the same score.) *)
Theorem exact_alias_score (headers : list string) (rows : list Row)
  (learned : option AliasTable) (threshold : Z) (m : Mapping)
  (scores : Scores) (f h a : string) :
  auto_map_columns set_iter headers rows learned threshold = Ok (m, scores) ->
  In h headers ->
  In a (Py.get_default f ALIASES []
        ++ Py.get_default f (or_empty learned) [])%list ->
  norm a = norm h ->
  exists ranked,
    Py.get f scores = Some ranked
    /\ (exists e, In e ranked /\ header e = h)
    /\ forall e, In e ranked -> header e = h -> 100 <= score e.
Proof.
  intros H Hh Ha E.
  assert (Kf : In f (keys scores)).
  { rewrite (scores_keys _ _ _ _ _ _ _ H), set_iter_elems.
    apply in_app_iff. apply in_app_iff in Ha.
    destruct Ha as [Ha | Ha]; [left | right];
      eapply get_default_In_keys; exact Ha. }
  destruct (Py.get f scores) as [ranked|] eqn:G;
    [|apply get_None in G; contradiction].
  exists ranked. split; [reflexivity|].
  destruct (scores_ranked _ _ _ _ _ _ _ _ _ H (get_In _ _ _ G)) as (fl & ->).
  split.
  - eexists. split; [apply ranked_entry, in_map, Hh | reflexivity].
  - intros e He Eh. apply ranked_entry, scored_entry in He.
    destruct He as [_ ->]. rewrite Eh.
    pose proof (score_pair_exact f _ (Py.get_default h fl []) h a
                  (proj2 (fromkeys_In _ _) Ha) E).
    lia.
Qed.

(** C8.  For a field of the scores output and [k >= 0], [top_candidates]
    is the first [min(k, length)] entries of the field's ranked list, in
    descending score order; the list is the one every threshold yields.
    For a field the scores do not have, it is empty. *)
Theorem top_candidates_prefix (headers : list string) (rows : list Row)
  (learned : option AliasTable) (threshold : Z) (m : Mapping)
  (scores : Scores) (f : string) (k : Z) :
  auto_map_columns set_iter headers rows learned threshold = Ok (m, scores) ->
  0 <= k ->
  match Py.get f scores with
  | Some ranked =>
      top_candidates scores f k
      = map (fun r => (header r, score r))
          (firstn (Nat.min (Z.to_nat k) (List.length ranked)) ranked)
      /\ (List.length (top_candidates scores f k) <= Z.to_nat k)%nat
      /\ StronglySorted (fun a b => snd b <= snd a) (top_candidates scores f k)
      /\ forall t', exists m',
           auto_map_columns set_iter headers rows learned t' = Ok (m', scores)
  | None => top_candidates scores f k = []
  end.
Proof.
  intros H Hk. unfold top_candidates, Py.get_default.
  destruct (Py.get f scores) as [ranked|] eqn:G.
  - rewrite slice_to_nonneg by exact Hk. split; [reflexivity|]. split.
    + rewrite length_map, length_firstn. lia.
    + split.
      * apply sorted_pairs, firstn_sorted.
        destruct (scores_ranked _ _ _ _ _ _ _ _ _ H (get_In _ _ _ G))
          as (fl & ->).
        apply sorted_desc_sorted.
      * intros t'. eexists. eapply scores_any_threshold, H.
  - rewrite slice_to_nonneg by exact Hk. now rewrite firstn_nil.
Qed.

(** C9.  Every ranked list of the scores output holds one entry per input
    header, whatever the Assigner claimed, in descending score order, the
    entries of equal score in the order of the headers. *)
Theorem scores_total_ranked (headers : list string) (rows : list Row)
  (learned : option AliasTable) (threshold : Z) (m : Mapping)
  (scores : Scores) (f : string) (ranked : list entry) :
  auto_map_columns set_iter headers rows learned threshold = Ok (m, scores) ->
  In (f, ranked) scores ->
  exists unsorted,
    map header unsorted = headers
    /\ Permutation ranked unsorted
    /\ Permutation (map header ranked) headers
    /\ StronglySorted desc ranked
    /\ forall v, with_score v ranked = with_score v unsorted.
Proof.
  intros H Hin.
  destruct (scores_ranked _ _ _ _ _ _ _ _ _ H Hin) as (fl & ->).
  eexists. split; [apply scored_headers|].
  split; [apply sorted_desc_perm|]. split.
  - erewrite <- (scored_headers f _ fl headers) at 2.
    apply Permutation_map, sorted_desc_perm.
  - split; [apply sorted_desc_sorted | intros v; apply sorted_desc_stable].
Qed.

End Claims.

Lemma no_double_assignment_witness : NoDup (map snd demo_mapping).
Proof.
  apply (no_double_assignment iter_first demo_headers demo_rows None 75
           demo_mapping demo_scores).
  vm_compute. reflexivity.
Defined.

Lemma threshold_monotone_witness :
  (List.length [("name", "businessName"); ("postal_code", "Zip")]
   <= List.length demo_mapping)%nat.
Proof.
  apply (threshold_monotone iter_first iter_first_nodup demo_headers demo_rows
           None 75 100 _ _ demo_scores demo_scores).
  - lia.
  - vm_compute. reflexivity.
  - vm_compute. reflexivity.
Defined.

Lemma assigner_follows_iteration_order_witness :
  keys demo_scores = iter_first (keys ALIASES ++ keys (or_empty None))%list.
Proof.
  apply (assigner_follows_iteration_order iter_first iter_first_nodup
           iter_first_elems demo_headers demo_rows None 75
           demo_mapping demo_scores).
  vm_compute. reflexivity.
Defined.

Lemma exact_alias_score_witness :
  exists ranked,
    Py.get "postal_code" demo_scores = Some ranked
    /\ (exists e, In e ranked /\ header e = "Zip")
    /\ forall e, In e ranked -> header e = "Zip" -> 100 <= score e.
Proof.
  apply (exact_alias_score iter_first iter_first_elems demo_headers demo_rows
           None 75 demo_mapping demo_scores "postal_code" "Zip" "zip").
  - vm_compute. reflexivity.
  - simpl. tauto.
  - simpl. tauto.
  - vm_compute. reflexivity.
Defined.

Lemma top_candidates_prefix_witness :
  match Py.get "email" demo_scores with
  | Some ranked =>
      top_candidates demo_scores "email" 2
      = map (fun r => (header r, score r))
          (firstn (Nat.min (Z.to_nat 2) (List.length ranked)) ranked)
      /\ (List.length (top_candidates demo_scores "email" 2) <= Z.to_nat 2)%nat
      /\ StronglySorted (fun a b => snd b <= snd a)
           (top_candidates demo_scores "email" 2)
      /\ forall t', exists m',
           auto_map_columns iter_first demo_headers demo_rows None t'
           = Ok (m', demo_scores)
  | None => top_candidates demo_scores "email" 2 = []
  end.
Proof.
  apply (top_candidates_prefix iter_first demo_headers demo_rows None 75
           demo_mapping demo_scores "email" 2).
  - vm_compute. reflexivity.
  - lia.
Defined.

Example top_candidates_email :
  top_candidates demo_scores "email" 2 = [("contact", 87); ("businessName", 9)]
  /\ top_candidates demo_scores "owner" 2 = [].
Proof. split; reflexivity. Qed.

Lemma scores_total_ranked_witness :
  exists unsorted,
    map header unsorted = demo_headers
    /\ Permutation (Py.get_default "email" demo_scores []) unsorted
    /\ Permutation (map header (Py.get_default "email" demo_scores []))
         demo_headers
    /\ StronglySorted desc (Py.get_default "email" demo_scores [])
    /\ forall v, with_score v (Py.get_default "email" demo_scores [])
                 = with_score v unsorted.
Proof.
  apply (scores_total_ranked iter_first demo_headers demo_rows None 75
           demo_mapping demo_scores "email").
  - vm_compute. reflexivity.
  - vm_compute. tauto.
Defined.

(** C10.  [fuzzy_score] lies between 0 and 1: the distance computed on the
    normalised strings is at most the length of the longer one.  (The
    integer bound is the second part; with [0 <= dist <= max_len] the
    quotient and its complement to 1 stay in [0, 1] in binary64 arithmetic
    as they do in the rationals.) *)
Theorem fuzzy_score_unit_interval (h alias : string) :
  (0 <= fuzzy_score h alias <= 1)%Q
  /\ 0 <= edit_distance (norm h) (norm alias)
       <= Z.max (len (norm h)) (len (norm alias)).
Proof.
  split; [apply fuzzy_score_range|].
  pose proof (edit_distance_bounds (norm h) (norm alias)) as D.
  now rewrite !norm_idem in D.
Qed.

(** C3.  On the value [--5] the digit test of the latitude check succeeds
    ([lstrip('-')] removes both signs) and [float] raises [ValueError]:
    [sniff_type] raises, and so does [auto_map_columns] on a row holding
    that cell. *)
Theorem sniff_type_raises_on_double_minus :
  numeric_guard "--5" = true
  /\ py_float "--5" = Raise ValueError
  /\ sniff_type (strs ["--5"]) = Raise ValueError
  /\ forall set_iter threshold,
       auto_map_columns set_iter ["x"] [[("x", Some "--5")]] None threshold
       = Raise ValueError.
Proof.
  split; [|split; [|split]]; vm_compute; reflexivity.
Qed.

Example sniff_type_raises_on_point_minus :
  sniff_type (strs ["12"; ".-5"]) = Raise ValueError.
Proof. vm_compute. reflexivity. Qed.

(** ** C4: which values make the sample *)

(** C4, as stated, fails: after fifty blank cells the code's sample is
    empty, while the first 50 non-blank values are the two addresses. *)
Lemma sample_not_first_nonblank :
  ~ (forall values, sample_of values = first_nonblank_50 values).
Proof.
  intros H. specialize (H blanks_then_emails). vm_compute in H. discriminate.
Qed.

Example blanks_then_emails_unflagged :
  sniff_type blanks_then_emails = Ok []
  /\ sniff_type (strs (first_nonblank_50 blanks_then_emails)) = Ok ["email"].
Proof. split; vm_compute; reflexivity. Qed.

Lemma kept_blank_length (l : list (option string)) :
  (List.length (flat_map kept l) + List.length (filter blank l)
   = List.length l)%nat.
Proof.
  induction l as [|v l IH]; simpl; [reflexivity|].
  rewrite length_app. unfold blank at 1.
  destruct v as [s|]; simpl; [destruct (nonempty (Py.strip s)); simpl|]; lia.
Qed.

(** C4, as the code has it.  The sample is made of the stripped values that
    are neither null nor blank among the first 50 raw values, in order:
    what stands after the 50th raw value is ignored, and each null or blank
    value among the first 50 takes one of the 50 places. *)
Theorem sample_from_first_50_raw (values : list (option string)) :
  sample_of values = first_nonblank_50 (firstn 50 values)
  /\ sample_of values = sample_of (firstn 50 values)
  /\ (List.length (sample_of values)
      + List.length (filter blank (firstn 50 values))
      = Nat.min 50 (List.length values))%nat.
Proof.
  split; [|split].
  - unfold first_nonblank_50. rewrite sample_of_kept.
    symmetry. apply firstn_all2.
    pose proof (kept_length (firstn 50 values)).
    pose proof (firstn_le_length 50 values). lia.
  - rewrite !sample_of_kept, firstn_firstn. reflexivity.
  - rewrite sample_of_kept, kept_blank_length. apply length_firstn.
Qed.

(** ** C5: the latitude and longitude flags *)

(** C5, as stated, fails: one in-range value out of three is flagged,
    though 1 is less than 60% of 3. *)
Lemma lat_flagged_below_60_percent :
  ~ (forall values res,
       sample_of values <> [] ->
       sniff_type values = Ok res ->
       (In "lat" res <->
        3 * size (sample_of values)
        <= 5 * count (holds lat_pred) (sample_of values))
       /\ (In "lng" res <->
           3 * size (sample_of values)
           <= 5 * count (holds lng_pred) (sample_of values))).
Proof.
  intros H.
  destruct (H (strs ["45"; "abc"; "def"]) ["lat"; "lng"]) as [[L _] _].
  - vm_compute. discriminate.
  - vm_compute. reflexivity.
  - specialize (L (or_introl eq_refl)). vm_compute in L. now apply L.
Qed.

(** C5, as the code has it.  For a sample of size [n >= 2], [sniff_type]
    flags [lat] exactly when the values that pass the digit test and whose
    float lies in [-90, 90] number at least [int(n * 0.6)], the integer part
    of [3n/5], and likewise [lng] with [-180, 180]; such a sample with no
    matching value is not flagged. *)
Theorem lat_lng_flag_threshold (values : list (option string))
  (res : list string) :
  2 <= size (sample_of values) ->
  sniff_type values = Ok res ->
  let sample := sample_of values in
  let n := size sample in
  int_times n f0_6 = 3 * n / 5
  /\ (In "lat" res <-> 3 * n / 5 <= count (holds lat_pred) sample)
  /\ (In "lng" res <-> 3 * n / 5 <= count (holds lng_pred) sample)
  /\ (count (holds lat_pred) sample = 0 -> ~ In "lat" res)
  /\ (count (holds lng_pred) sample = 0 -> ~ In "lng" res).
Proof.
  intros N H. cbv zeta.
  pose proof (sample_of_size values) as B.
  assert (N0 : size (sample_of values) <> 0) by lia.
  pose proof (sniff_type_Ok values res H N0) as I. cbv zeta in I.
  destruct I as (_ & _ & I).
  remember (sample_of values) as sample eqn:Es.
  remember (size sample) as n eqn:En.
  assert (T : int_times n f0_6 = 3 * n / 5) by (apply int_times_f0_6; lia).
  rewrite T in I.
  assert (P : 1 <= 3 * n / 5) by (apply Z.div_le_lower_bound; lia).
  assert (Lat : In "lat" res <-> 3 * n / 5 <= count (holds lat_pred) sample).
  { rewrite I. split; [|tauto].
    intros [[_ E] | [[_ E] | [[_ E] | [[L _] | [_ E]]]]];
      try discriminate E. exact L. }
  assert (Lng : In "lng" res <-> 3 * n / 5 <= count (holds lng_pred) sample).
  { rewrite I. split; [|tauto].
    intros [[_ E] | [[_ E] | [[_ E] | [[_ E] | [L _]]]]];
      try discriminate E. exact L. }
  split; [exact T|]. split; [exact Lat|]. split; [exact Lng|].
  split; intros Z0 F; [apply Lat in F | apply Lng in F]; lia.
Qed.

Lemma lat_lng_flag_threshold_witness :
  let sample := sample_of (strs ["40.7128"; "-74.0060"; "12"; "200.5"; "abc"]) in
  let n := size sample in
  int_times n f0_6 = 3 * n / 5
  /\ (In "lat" ["phone"; "lat"; "lng"]
      <-> 3 * n / 5 <= count (holds lat_pred) sample)
  /\ (In "lng" ["phone"; "lat"; "lng"]
      <-> 3 * n / 5 <= count (holds lng_pred) sample)
  /\ (count (holds lat_pred) sample = 0 -> ~ In "lat" ["phone"; "lat"; "lng"])
  /\ (count (holds lng_pred) sample = 0 -> ~ In "lng" ["phone"; "lat"; "lng"]).
Proof.
  apply (lat_lng_flag_threshold
           (strs ["40.7128"; "-74.0060"; "12"; "200.5"; "abc"])
           ["phone"; "lat"; "lng"]).
  - vm_compute. discriminate.
  - vm_compute. reflexivity.
Defined.

(** A sample of one value that is no number at all is flagged as latitude
    and longitude: [int(1 * 0.6)] is 0. *)
Example single_value_always_flagged :
  sniff_type (strs ["abc"]) = Ok ["lat"; "lng"].
Proof. vm_compute. reflexivity. Qed.

(** ** C6: the order of the fields *)

(** C6, as stated, fails: under an enumeration of the set that is not the
    built-in order (here the reverse one), the fields are not processed
    built-in first. *)
Lemma fields_not_builtin_first :
  ~ (forall set_iter,
       (forall l, NoDup (set_iter l)) ->
       (forall l x, In x (set_iter l) <-> In x l) ->
       forall headers rows learned threshold m scores,
         auto_map_columns set_iter headers rows learned threshold
         = Ok (m, scores) ->
         keys scores = builtin_first (or_empty learned)).
Proof.
  intros H.
  specialize (H iter_last iter_last_nodup iter_last_elems
                ["name"] [] (Some [("rating", ["name"])]) 75).
  specialize (H [("rating", "name")] _ eq_refl).
  vm_compute in H. discriminate.
Qed.

(** The same header goes to a different field under the two enumerations. *)
Example contested_header_follows_enumeration :
  (exists s, auto_map_columns iter_first ["name"] []
               (Some [("rating", ["name"])]) 75 = Ok ([("name", "name")], s))
  /\ (exists s, auto_map_columns iter_last ["name"] []
                  (Some [("rating", ["name"])]) 75 = Ok ([("rating", "name")], s)).
Proof. split; eexists; vm_compute; reflexivity. Qed.

(** * Further properties of the code *)

(** ** The two-row table computes the Levenshtein recurrence *)

Lemma lev_nil_r (ra : list ascii) : lev ra [] = Z.of_nat (List.length ra).
Proof. destruct ra; reflexivity. Qed.

Lemma lev_cons_cons (x y : ascii) (ra rb : list ascii) :
  lev (x :: ra) (y :: rb)
  = Z.min (Z.min (lev ra (y :: rb) + 1) (lev (x :: ra) rb + 1))
          (lev ra rb + (if Ascii.eqb x y then 0 else 1)).
Proof. reflexivity. Qed.

Lemma row_from_head (ra rb : list ascii) (B : string) :
  exists r, row_from ra rb B = lev ra rb :: r.
Proof. destruct B; simpl; eexists; reflexivity. Qed.

Lemma row_from_nil (rb : list ascii) (B : string) :
  row_from [] rb B
  = map Z.of_nat (seq (List.length rb) (S (String.length B))).
Proof.
  revert rb. induction B as [|y B IH]; intros rb.
  - reflexivity.
  - cbn [row_from String.length]. rewrite IH. reflexivity.
Qed.

Lemma fill_row_spec (x : ascii) (ra : list ascii) (B : string)
  (rb : list ascii) :
  fill_row x B (row_from ra rb B) (lev (x :: ra) rb)
  = tl (row_from (x :: ra) rb B).
Proof.
  revert rb. induction B as [|y B IH]; intros rb.
  - reflexivity.
  - cbn [row_from tl].
    destruct (row_from_head ra (y :: rb) B) as [r E].
    destruct (row_from_head (x :: ra) (y :: rb) B) as [r' E'].
    rewrite E. cbn [fill_row]. rewrite <- E.
    rewrite <- lev_cons_cons. rewrite IH, E'. reflexivity.
Qed.

Lemma next_row_spec (x : ascii) (ra : list ascii) (B : string) :
  next_row (Z.of_nat (S (List.length ra))) x B (row_from ra [] B)
  = row_from (x :: ra) [] B.
Proof.
  unfold next_row.
  replace (Z.of_nat (S (List.length ra))) with (lev (x :: ra) [])
    by reflexivity.
  rewrite fill_row_spec.
  destruct (row_from_head (x :: ra) [] B) as [r ->]. reflexivity.
Qed.

Lemma dp_rows_spec (A B : string) (ra : list ascii) :
  dp_rows A B (Z.of_nat (S (List.length ra))) (row_from ra [] B)
  = row_from (rev_append (chars A) ra) [] B.
Proof.
  revert ra. induction A as [|x A IH]; intros ra.
  - reflexivity.
  - cbn [dp_rows]. rewrite next_row_spec.
    replace (Z.of_nat (S (List.length ra)) + 1)
      with (Z.of_nat (S (List.length (x :: ra))))
      by (cbn [List.length]; lia).
    rewrite IH. reflexivity.
Qed.

Lemma row_from_last (ra rb : list ascii) (B : string) :
  nth (String.length B) (row_from ra rb B) 0
  = lev ra (rev_append (chars B) rb).
Proof.
  revert rb. induction B as [|y B IH]; intros rb.
  - reflexivity.
  - cbn [row_from String.length nth]. rewrite IH. reflexivity.
Qed.

Lemma chars_length (s : string) : List.length (chars s) = String.length s.
Proof.
  induction s as [|c s IH]; simpl; [reflexivity | now rewrite IH].
Qed.

Lemma rchars_length (s : string) : List.length (rchars s) = String.length s.
Proof. unfold rchars. rewrite length_rev. apply chars_length. Qed.

Lemma edit_distance_lev (a b : string) :
  edit_distance a b = lev (rchars (norm a)) (rchars (norm b)).
Proof.
  unfold edit_distance, len.
  destruct (Z.of_nat (String.length (norm a)) =? 0) eqn:Ea.
  - apply Z.eqb_eq in Ea.
    assert (E : rchars (norm a) = []).
    { apply length_zero_iff_nil. rewrite rchars_length. lia. }
    rewrite E. simpl. now rewrite rchars_length.
  - destruct (Z.of_nat (String.length (norm b)) =? 0) eqn:Eb.
    + apply Z.eqb_eq in Eb.
      assert (E : rchars (norm b) = []).
      { apply length_zero_iff_nil. rewrite rchars_length. lia. }
      rewrite E, lev_nil_r. now rewrite rchars_length.
    + unfold range. rewrite Nat.add_1_r.
      pose proof (row_from_nil [] (norm b)) as R. cbn [List.length] in R.
      rewrite <- R.
      change 1 with (Z.of_nat (S (@List.length ascii []))).
      rewrite dp_rows_spec, row_from_last.
      unfold rchars. now rewrite !rev_append_rev, !app_nil_r.
Qed.

(** ** The recurrence: symmetry, bounds, zero *)

Lemma lev_sym (ra rb : list ascii) : lev ra rb = lev rb ra.
Proof.
  revert rb. induction ra as [|x ra IHa]; intros rb.
  - now rewrite lev_nil_r.
  - induction rb as [|y rb IHb].
    + now rewrite lev_nil_r.
    + rewrite !lev_cons_cons, IHb, <- (IHa (y :: rb)), <- (IHa rb).
      rewrite (Ascii.eqb_sym y x). lia.
Qed.

Lemma lev_bounds (ra rb : list ascii) :
  Z.abs (Z.of_nat (List.length ra) - Z.of_nat (List.length rb)) <= lev ra rb
  /\ lev ra rb <= Z.max (Z.of_nat (List.length ra)) (Z.of_nat (List.length rb)).
Proof.
  revert rb. induction ra as [|x ra IHa]; intros rb.
  - simpl. lia.
  - induction rb as [|y rb IHb].
    + rewrite lev_nil_r. simpl List.length. lia.
    + rewrite lev_cons_cons.
      pose proof (IHa (y :: rb)) as H1. pose proof (IHa rb) as H2.
      cbn [List.length] in *.
      destruct (Ascii.eqb x y); lia.
Qed.

Lemma lev_zero (ra rb : list ascii) : lev ra rb = 0 <-> ra = rb.
Proof.
  revert rb. induction ra as [|x ra IHa]; intros rb.
  - simpl. destruct rb; simpl; split; try discriminate; reflexivity.
  - induction rb as [|y rb IHb].
    + rewrite lev_nil_r. simpl. split; [lia | discriminate].
    + rewrite lev_cons_cons.
      pose proof (proj1 (lev_bounds ra (y :: rb))) as H1.
      pose proof (proj1 (lev_bounds (x :: ra) rb)) as H2.
      pose proof (proj1 (lev_bounds ra rb)) as H3.
      destruct (Ascii.eqb x y) eqn:E.
      * apply Ascii.eqb_eq in E. subst y. split.
        -- intros H. f_equal. apply IHa. lia.
        -- intros [= E']. pose proof (proj2 (IHa rb) E'). lia.
      * apply Ascii.eqb_neq in E. split; [lia | congruence].
Qed.

Lemma rchars_inj (s t : string) : rchars s = rchars t -> s = t.
Proof.
  unfold rchars, chars. intros H.
  apply (f_equal (@rev ascii)) in H. rewrite !rev_involutive in H.
  apply (f_equal string_of_list_ascii) in H.
  now rewrite !string_of_list_ascii_of_string in H.
Qed.

(** X1.  [edit_distance] is the Levenshtein distance of the two normalised
    strings: the two-row table computes the recurrence on last characters
    (deletion, insertion, substitution, each of cost 1). *)
Theorem edit_distance_levenshtein (a b : string) :
  edit_distance a b = lev (rchars (norm a)) (rchars (norm b)).
Proof. apply edit_distance_lev. Qed.

(** X2.  [edit_distance] is symmetric. *)
Theorem edit_distance_symmetric (a b : string) :
  edit_distance a b = edit_distance b a.
Proof. rewrite !edit_distance_lev. apply lev_sym. Qed.

Lemma edit_distance_zero (a b : string) :
  edit_distance a b = 0 <-> norm a = norm b.
Proof.
  rewrite edit_distance_lev, lev_zero. split.
  - apply rchars_inj.
  - now intros ->.
Qed.

(** X3.  [edit_distance] is 0 exactly when the two strings have the same
    normal form. *)
Theorem edit_distance_zero_iff (a b : string) :
  edit_distance a b = 0 <-> norm a = norm b.
Proof. apply edit_distance_zero. Qed.

(** X4.  [edit_distance] is at least the difference of the lengths of the
    normalised strings. *)
Theorem edit_distance_length_gap (a b : string) :
  Z.abs (len (norm a) - len (norm b)) <= edit_distance a b.
Proof.
  rewrite edit_distance_lev.
  pose proof (proj1 (lev_bounds (rchars (norm a)) (rchars (norm b)))) as H.
  rewrite !rchars_length in H. exact H.
Qed.

(** X5.  [fuzzy_score] is symmetric. *)
Theorem fuzzy_score_symmetric (h alias : string) :
  fuzzy_score h alias = fuzzy_score alias h.
Proof.
  unfold fuzzy_score.
  rewrite (String.eqb_sym (norm alias) (norm h)).
  destruct (String.eqb (norm h) (norm alias)); [reflexivity|].
  rewrite (edit_distance_lev (norm alias)), (edit_distance_lev (norm h)).
  rewrite (lev_sym (rchars (norm (norm alias)))).
  rewrite (Z.max_comm (len (norm alias))). reflexivity.
Qed.

(** X6.  [fuzzy_score] is 1 exactly when the two strings have the same
    normal form. *)
Theorem fuzzy_score_one_iff (h alias : string) :
  (fuzzy_score h alias == 1)%Q <-> norm h = norm alias.
Proof.
  split.
  - intros H. unfold fuzzy_score in H.
    destruct (String.eqb (norm h) (norm alias)) eqn:E;
      [now apply String.eqb_eq|].
    exfalso. apply String.eqb_neq in E. apply E.
    set (d := edit_distance (norm h) (norm alias)) in *.
    set (m := if Z.max (len (norm h)) (len (norm alias)) =? 0 then 1
              else Z.max (len (norm h)) (len (norm alias))) in *.
    assert (Hm : 1 <= m).
    { unfold m, len. destruct (Z.max _ _ =? 0) eqn:M; [lia|].
      apply Z.eqb_neq in M. unfold len in M. lia. }
    assert (Q0 : (inject_Z d / inject_Z m == 0)%Q).
    { remember (inject_Z d / inject_Z m)%Q as q. lra. }
    assert (D : (inject_Z d == 0)%Q).
    { apply Qeq_trans with (inject_Z m * (inject_Z d / inject_Z m))%Q.
      - symmetry. apply Qmult_div_r. unfold Qeq. simpl. lia.
      - rewrite Q0. ring. }
    assert (D0 : d = 0) by (unfold Qeq in D; simpl in D; lia).
    apply edit_distance_zero in D0. now rewrite !norm_idem in D0.
  - intros E. unfold fuzzy_score. rewrite E, String.eqb_refl. reflexivity.
Qed.

(** ** The normaliser and the tokens *)

(** X7.  [norm] is idempotent. *)
Theorem norm_idempotent (s : string) : norm (norm s) = norm s.
Proof. apply norm_idem. Qed.

Lemma tidy_norm_char (b : bool) (s : string) :
  tidy b s -> Py.all_chars norm_char s = true.
Proof.
  revert b. induction s as [|c s IH]; intros b; simpl; [trivial|].
  intros ((U & S & Sp) & _ & T). rewrite (IH _ T), andb_true_r.
  unfold norm_char. rewrite U, S. simpl.
  destruct (Py.is_space c); [|reflexivity].
  rewrite (Sp eq_refl). reflexivity.
Qed.

Lemma tidy_single_spaced (b : bool) (s : string) :
  tidy b s -> single_spaced s = true.
Proof.
  revert b. induction s as [|c s IH]; intros b; [trivial|].
  intros (_ & _ & T). destruct s as [|d s']; [reflexivity|].
  change (single_spaced (String c (String d s')))
    with (negb (Py.is_space c && Py.is_space d)
          && single_spaced (String d s'))%bool.
  rewrite (IH _ T), andb_true_r.
  destruct T as (_ & N & _). destruct (Py.is_space c); [|reflexivity].
  now rewrite (N eq_refl).
Qed.

Lemma norm_tidy (s : string) :
  Py.all_chars norm_char (norm s) = true
  /\ Py.strip (norm s) = norm s
  /\ single_spaced (norm s) = true.
Proof.
  destruct (norm_normal s) as [T R]. split; [|split].
  - eapply tidy_norm_char, T.
  - unfold Py.strip. now rewrite (tidy_lstrip _ T).
  - eapply tidy_single_spaced, T.
Qed.

(** X8.  A normalised string holds no capital letter, no separator and no
    blank other than the space; it neither starts nor ends with a blank and
    has no two blanks in a row. *)
Theorem norm_shape (s : string) :
  Py.all_chars norm_char (norm s) = true
  /\ Py.strip (norm s) = norm s
  /\ single_spaced (norm s) = true.
Proof. apply norm_tidy. Qed.

Lemma set_of_In (l : list string) (x : string) :
  In x (Py.set_of l) <-> In x l.
Proof.
  revert x. induction l as [|y l IH]; intros x; simpl; [tauto|].
  destruct (Py.mem y (Py.set_of l)) eqn:E.
  - apply mem_In, IH in E. rewrite IH. split; [tauto|].
    intros [<- | H]; assumption.
  - simpl. rewrite IH. tauto.
Qed.

Lemma set_of_NoDup (l : list string) : NoDup (Py.set_of l).
Proof.
  induction l as [|y l IH]; simpl; [constructor|].
  destruct (Py.mem y (Py.set_of l)) eqn:E; [assumption|].
  constructor; [now apply mem_false | assumption].
Qed.

Lemma split_pieces (p : ascii -> bool) (sep : ascii) (s : string) :
  Py.all_chars p s = true ->
  Forall (fun w => Py.all_chars
                     (fun c => (p c && negb (Ascii.eqb c sep))%bool) w = true)
         (Py.split sep s).
Proof.
  induction s as [|c s IH]; simpl; intros H.
  - repeat constructor.
  - apply andb_true_iff in H. destruct H as [Pc Ps]. specialize (IH Ps).
    destruct (Ascii.eqb c sep) eqn:E.
    + constructor; [reflexivity | exact IH].
    + destruct (Py.split sep s) as [|w ws]; [repeat constructor; simpl|].
      * now rewrite Pc, E.
      * inversion IH as [|? ? Hw Hws]; subst. constructor; [|exact Hws].
        simpl. now rewrite Pc, E, Hw.
Qed.

Lemma tokens_distinct_plain (s : string) :
  NoDup (tokens s)
  /\ forall t, In t (tokens s) ->
       t <> ""
       /\ Py.all_chars
            (fun c => (negb (Py.is_space c) && negb (Py.is_upper c)
                       && negb (is_sep c))%bool) t = true.
Proof.
  unfold tokens. split; [apply set_of_NoDup|].
  intros t Ht. apply set_of_In, filter_In in Ht. destruct Ht as [Hin Hne].
  split; [intros ->; discriminate|].
  pose proof (split_pieces norm_char " " (norm s) (proj1 (norm_tidy s))) as F.
  rewrite Forall_forall in F. specialize (F t Hin).
  eapply all_chars_weaken; [|exact F].
  intros c Hc. unfold norm_char in Hc.
  destruct (Py.is_upper c), (is_sep c), (Py.is_space c); simpl in *;
    try discriminate; try reflexivity.
  now rewrite andb_negb_r in Hc.
Qed.

(** X9.  The tokens of a string are distinct, none is empty, and none
    holds a blank, a capital letter or a separator. *)
Theorem tokens_wellformed (s : string) :
  NoDup (tokens s)
  /\ forall t, In t (tokens s) ->
       t <> ""
       /\ Py.all_chars
            (fun c => (negb (Py.is_space c) && negb (Py.is_upper c)
                       && negb (is_sep c))%bool) t = true.
Proof. apply tokens_distinct_plain. Qed.

(** ** The token overlap *)

Lemma inter_In (a b : list string) (x : string) :
  In x (Py.inter a b) <-> In x a /\ In x b.
Proof. unfold Py.inter. rewrite filter_In, mem_In. tauto. Qed.

Lemma union_In (a b : list string) (x : string) :
  In x (Py.union a b) <-> In x a \/ In x b.
Proof.
  unfold Py.union. rewrite in_app_iff, filter_In, negb_true_iff, mem_false.
  destruct (in_dec string_dec x a); tauto.
Qed.

Lemma union_NoDup (a b : list string) :
  NoDup a -> NoDup b -> NoDup (Py.union a b).
Proof.
  intros Na Nb. unfold Py.union. apply NoDup_app.
  - exact Na.
  - now apply NoDup_filter.
  - intros x Hx H. apply filter_In in H. destruct H as [_ H].
    apply negb_true_iff, mem_false in H. contradiction.
Qed.

Lemma same_elements_length (l1 l2 : list string) :
  NoDup l1 -> NoDup l2 -> (forall x, In x l1 <-> In x l2) ->
  List.length l1 = List.length l2.
Proof.
  intros N1 N2 H. apply Nat.le_antisymm; apply NoDup_incl_length;
    try assumption; intros x Hx; now apply H.
Qed.

Lemma filter_all {A} (p : A -> bool) (l : list A) :
  List.length (filter p l) = List.length l -> forall x, In x l -> p x = true.
Proof.
  induction l as [|y l IH]; simpl; [tauto|].
  pose proof (filter_length_le p l) as L.
  destruct (p y) eqn:E; simpl; intros H x [<- | Hx];
    try assumption; try lia.
  apply IH; [lia | assumption].
Qed.

Lemma Qdiv_one (i u : Z) :
  1 <= u -> (inject_Z i / inject_Z u == 1)%Q -> i = u.
Proof.
  intros Hu H.
  assert (E : (inject_Z i == inject_Z u)%Q).
  { apply Qeq_trans with (inject_Z u * (inject_Z i / inject_Z u))%Q.
    - symmetry. apply Qmult_div_r. unfold Qeq. simpl. lia.
    - rewrite H. ring. }
  unfold Qeq in E. simpl in E. lia.
Qed.

Lemma jaccard_unit (a b : list string) : (0 <= jaccard a b <= 1)%Q.
Proof.
  unfold jaccard.
  assert (I : 0 <= size (Py.inter a b) <= size (Py.union a b)).
  { unfold size, Py.inter, Py.union. rewrite length_app.
    pose proof (filter_length_le (fun x => Py.mem x b) a). lia. }
  assert (G : (0 <= inject_Z (size (Py.inter a b))
                    / inject_Z (if size (Py.union a b) =? 0 then 1
                                else size (Py.union a b)) <= 1)%Q).
  { apply Qdiv_unit_interval;
      destruct (size (Py.union a b) =? 0) eqn:E; lia. }
  destruct a, b; try exact G. split; discriminate.
Qed.

(** X10.  [jaccard] lies between 0 and 1. *)
Theorem jaccard_range (a b : list string) : (0 <= jaccard a b <= 1)%Q.
Proof. apply jaccard_unit. Qed.

(** X11.  On sets (lists without repeats) [jaccard] is symmetric. *)
Theorem jaccard_symmetric (a b : list string) :
  NoDup a -> NoDup b -> jaccard a b = jaccard b a.
Proof.
  intros Na Nb.
  assert (I : size (Py.inter a b) = size (Py.inter b a)).
  { unfold size. f_equal. apply same_elements_length.
    - now apply NoDup_filter.
    - now apply NoDup_filter.
    - intros x. rewrite !inter_In. tauto. }
  assert (U : size (Py.union a b) = size (Py.union b a)).
  { unfold size. f_equal. apply same_elements_length.
    - now apply union_NoDup.
    - now apply union_NoDup.
    - intros x. rewrite !union_In. tauto. }
  unfold jaccard. rewrite I, U. destruct a, b; reflexivity.
Qed.

Lemma jaccard_symmetric_witness :
  jaccard (tokens "business name") (tokens "name")
  = jaccard (tokens "name") (tokens "business name").
Proof.
  apply jaccard_symmetric; apply tokens_distinct_plain.
Defined.

(** X12.  [jaccard] is 1 exactly when the two lists hold the same
    elements, whatever their order. *)
Theorem jaccard_one_iff (a b : list string) :
  (jaccard a b == 1)%Q <-> forall x, In x a <-> In x b.
Proof.
  unfold jaccard.
  assert (Same : (forall x, In x a <-> In x b) ->
                 Py.inter a b = a /\ Py.union a b = a).
  { intros H. split.
    - apply forallb_filter_id, forallb_forall. intros x Hx.
      now apply mem_In, H.
    - unfold Py.union. rewrite filter_none; [apply app_nil_r|].
      intros x Hx. now apply negb_false_iff, mem_In, H. }
  assert (Conv : a <> [] \/ b <> [] ->
                 (inject_Z (size (Py.inter a b))
                  / inject_Z (if size (Py.union a b) =? 0 then 1
                              else size (Py.union a b)) == 1)%Q ->
                 forall x, In x a <-> In x b).
  { intros Ne H.
    assert (Upos : 1 <= size (Py.union a b)).
    { unfold size, Py.union. rewrite length_app.
      destruct a as [|y a']; simpl; [|lia].
      destruct b as [|z b']; [destruct Ne; congruence | simpl; lia]. }
    replace (size (Py.union a b) =? 0) with false in H
      by (symmetry; apply Z.eqb_neq; lia).
    apply Qdiv_one in H; [|exact Upos].
    unfold size, Py.inter, Py.union in H. rewrite length_app in H.
    pose proof (filter_length_le (fun x => Py.mem x b) a) as L.
    assert (Fa : List.length (filter (fun x => Py.mem x b) a) = List.length a)
      by lia.
    assert (Fb : List.length (filter (fun x => negb (Py.mem x a)) b) = 0%nat)
      by lia.
    apply length_zero_iff_nil in Fb.
    intros x. split; intros Hx.
    - apply mem_In. exact (filter_all _ _ Fa x Hx).
    - destruct (Py.mem x a) eqn:M; [now apply mem_In|].
      assert (In x (filter (fun x => negb (Py.mem x a)) b))
        by (apply filter_In; split; [assumption | now rewrite M]).
      rewrite Fb in H0. destruct H0. }
  destruct a as [|y a'], b as [|z b'].
  - split; [tauto | reflexivity].
  - split; [apply Conv; right; discriminate|].
    intros H. destruct (proj2 (H z) (or_introl eq_refl)).
  - split; [apply Conv; left; discriminate|].
    intros H. destruct (proj1 (H y) (or_introl eq_refl)).
  - split; [apply Conv; left; discriminate|].
    intros H. destruct (Same H) as [-> ->].
    unfold size. cbn [List.length].
    replace (Z.of_nat (S (List.length a')) =? 0) with false
      by (symmetry; apply Z.eqb_neq; lia).
    apply Qmult_inv_r. unfold Qeq. simpl. lia.
Qed.

(** ** The range of the scores *)

Lemma max_from_In (best : Q) (l : list Q) :
  Py.max_from best l = best \/ In (Py.max_from best l) l.
Proof.
  revert best. induction l as [|x l IH]; intros best; simpl; [now left|].
  destruct (Qlt_le_dec best x).
  - destruct (IH x) as [-> | H]; [right; now left | right; now right].
  - destruct (IH best) as [-> | H]; [now left | right; now right].
Qed.

Lemma max_default_unit (l : list Q) :
  Forall (fun x => 0 <= x <= 1)%Q l -> (0 <= Py.max_default l 0 <= 1)%Q.
Proof.
  intros F. destruct l as [|x l]; simpl; [split; discriminate|].
  rewrite Forall_forall in F.
  destruct (max_from_In x l) as [-> | H]; apply F; [now left | now right].
Qed.

Lemma round_le (z : Z) (x : Q) : (x <= inject_Z z)%Q -> Py.round x <= z.
Proof.
  intros H. pose proof (Qfloor_resp_le _ _ H) as F. rewrite Qfloor_Z in F.
  pose proof (Qfloor_le x) as L.
  unfold Py.round. cbv zeta.
  destruct (Z.eq_dec (Qfloor x) z) as [E | N].
  - assert (X : (x - inject_Z (Qfloor x) <= 0)%Q) by (rewrite E; lra).
    destruct (Qcompare (x - inject_Z (Qfloor x)) (1 # 2)) eqn:C.
    + apply Qeq_alt in C. lra.
    + lia.
    + apply Qgt_alt in C. lra.
  - destruct (Qcompare _ _); [destruct (Z.even _)| |]; lia.
Qed.

Lemma similarity_maxima (h : string) (alias_list : list string) :
  (0 <= Py.max_default
          (map (fun a => jaccard (tokens h) (tokens a)) alias_list) 0 <= 1)%Q
  /\ (0 <= Py.max_default
             (map (fun a => fuzzy_score h a) alias_list) 0 <= 1)%Q.
Proof.
  split; apply max_default_unit, Forall_forall; intros x Hx;
    apply in_map_iff in Hx; destruct Hx as (a & <- & _).
  - apply jaccard_unit.
  - apply fuzzy_score_range.
Qed.

Lemma score_pair_bounds (field : string) (alias_list flags : list string)
  (h : string) :
  -30 <= score_pair field alias_list flags h <= 250
  /\ ((forall a, In a alias_list -> norm a <> norm h) ->
      score_pair field alias_list flags h <= 150).
Proof.
  unfold score_pair.
  destruct (similarity_maxima h alias_list) as [[J0 J1] [F0 F1]].
  set (jm := Py.max_default _ _) in *.
  set (fm := Py.max_default _ _) in *.
  assert (NX : (forall a, In a alias_list -> norm a <> norm h) ->
               existsb (fun a => String.eqb (norm a) (norm h)) alias_list
               = false).
  { intros H. apply not_true_is_false. intros X.
    apply existsb_exists in X. destruct X as (a & Ha & E).
    apply String.eqb_eq in E. exact (H a Ha E). }
  assert (Excl : String.eqb field "postal_code" = true ->
                 String.eqb field "phone" = false).
  { intros E. apply String.eqb_eq in E. now subst field. }
  split; [split|intros H; rewrite (NX H)];
    [apply round_ge | apply round_le | apply round_le];
    destruct alias_list as [|a0 rest];
    try destruct (existsb _ _);
    destruct (Py.mem field flags);
    (destruct (String.eqb field "postal_code");
     [rewrite (Excl eq_refl) | ]);
    cbn [andb];
    repeat match goal with
           | |- context [if ?b then _ else _] => destruct b
           end;
    unfold inject_Z; lra.
Qed.

(** X13.  Every score lies between -30 and 250; the score of a header that
    normalises to no alias of the field is at most 150, and that of a
    header that normalises to one of them at least 180. *)
Theorem score_pair_range (field : string) (alias_list flags : list string)
  (h : string) :
  -30 <= score_pair field alias_list flags h <= 250
  /\ ((forall a, In a alias_list -> norm a <> norm h) ->
      score_pair field alias_list flags h <= 150)
  /\ ((exists a, In a alias_list /\ norm a = norm h) ->
      180 <= score_pair field alias_list flags h).
Proof.
  destruct (score_pair_bounds field alias_list flags h) as [R N].
  split; [exact R|]. split; [exact N|].
  intros (a & Ha & E). exact (score_pair_exact _ _ _ _ a Ha E).
Qed.

Lemma sorted_split (R : entry -> entry -> Prop) (l1 l2 : list entry)
  (x : entry) :
  StronglySorted R (l1 ++ x :: l2) -> Forall (R x) l2.
Proof.
  induction l1 as [|y l1 IH]; simpl; intros S;
    inversion S as [|? ? S' All]; subst; [exact All | now apply IH].
Qed.

Lemma sorted_before (l : list entry) (e1 e2 : entry) :
  StronglySorted desc l -> In e1 l -> In e2 l -> score e2 < score e1 ->
  exists l1 l2 l3, l = (l1 ++ e1 :: l2 ++ e2 :: l3)%list.
Proof.
  intros S H1 H2 Lt.
  destruct (in_split _ _ H2) as (p & q & ->).
  apply in_app_or in H1. destruct H1 as [H1 | [H1 | H1]].
  - destruct (in_split _ _ H1) as (l1 & l2 & ->).
    exists l1, l2, q. now rewrite <- app_assoc.
  - subst. lia.
  - pose proof (sorted_split _ _ _ _ S) as F. rewrite Forall_forall in F.
    specialize (F e1 H1). unfold desc in F. lia.
Qed.

(** X14.  In the ranked list of a field, a header that normalises to one
    of the field's aliases scores strictly more than, and stands before,
    every header that normalises to none of them. *)
Theorem exact_header_outranks (set_iter : list string -> list string)
  (headers : list string) (rows : list Row) (learned : option AliasTable)
  (threshold : Z) (m : Mapping) (scores : Scores) (f : string)
  (ranked : list entry) (e1 e2 : entry) :
  auto_map_columns set_iter headers rows learned threshold = Ok (m, scores) ->
  In (f, ranked) scores ->
  In e1 ranked -> In e2 ranked ->
  (exists a, In a (Py.get_default f ALIASES []
                   ++ Py.get_default f (or_empty learned) [])%list
             /\ norm a = norm (header e1)) ->
  (forall a, In a (Py.get_default f ALIASES []
                   ++ Py.get_default f (or_empty learned) [])%list ->
             norm a <> norm (header e2)) ->
  score e2 < score e1
  /\ exists l1 l2 l3, ranked = (l1 ++ e1 :: l2 ++ e2 :: l3)%list.
Proof.
  intros H Hin H1 H2 (a & Ha & E) N.
  destruct (scores_ranked _ _ _ _ _ _ _ _ _ H Hin) as (fl & ->).
  assert (Lt : score e2 < score e1).
  { apply ranked_entry, scored_entry in H1, H2.
    destruct H1 as [_ ->], H2 as [_ ->].
    pose proof (score_pair_exact f _ (Py.get_default (header e1) fl [])
                  (header e1) a (proj2 (fromkeys_In _ _) Ha) E) as Hi.
    pose proof (proj2 (score_pair_bounds f
                  (Py.fromkeys (Py.get_default f ALIASES []
                                ++ Py.get_default f (or_empty learned) [])%list)
                  (Py.get_default (header e2) fl []) (header e2))) as Lo.
    assert (score_pair f
              (Py.fromkeys (Py.get_default f ALIASES []
                            ++ Py.get_default f (or_empty learned) [])%list)
              (Py.get_default (header e2) fl []) (header e2) <= 150).
    { apply Lo. intros a' Ha'. apply N. now apply fromkeys_In. }
    lia. }
  split; [exact Lt|].
  apply sorted_before; try assumption. apply sorted_desc_sorted.
Qed.

Lemma exact_header_outranks_witness :
  score {| header := "contact"; score := 17 |}
  < score {| header := "Zip"; score := 220 |}
  /\ exists l1 l2 l3,
       Py.get_default "postal_code" demo_scores []
       = (l1 ++ {| header := "Zip"; score := 220 |}
             :: l2 ++ {| header := "contact"; score := 17 |} :: l3)%list.
Proof.
  apply (exact_header_outranks iter_first demo_headers demo_rows None 75
           demo_mapping demo_scores "postal_code").
  - vm_compute. reflexivity.
  - vm_compute. tauto.
  - vm_compute. tauto.
  - vm_compute. tauto.
  - exists "zip". split; [simpl; tauto | vm_compute; reflexivity].
  - intros a Ha. vm_compute in Ha.
    repeat (destruct Ha as [<- | Ha]; [vm_compute; discriminate|]).
    destruct Ha.
Defined.

(** ** What the sniffer returns, and when it raises *)

Lemma count_raising_cases (pred : string -> result bool) (l : list string) :
  ((exists c, count_raising pred l = Ok c)
   /\ forall v, In v l -> exists b, pred v = Ok b)
  \/ (count_raising pred l = Raise ValueError
      /\ exists v, In v l /\ pred v = Raise ValueError).
Proof.
  induction l as [|v l IH]; cbn [count_raising].
  - left. split; [now exists 0 | intros v []].
  - destruct (pred v) as [b | []] eqn:Ev; cbn [bind].
    + destruct IH as [[[c ->] All] | [-> (w & Hw & Ew)]]; cbn [bind].
      * left. split; [eexists; reflexivity|].
        intros w [<- | Hw]; [now exists b | now apply All].
      * right. split; [reflexivity|]. exists w. split; [now right | exact Ew].
    + right. split; [reflexivity|]. exists v. split; [now left | exact Ev].
Qed.

Lemma range_pred_Raise (lo hi : Z) (v : string) :
  range_pred lo hi v = Raise ValueError
  <-> numeric_guard v = true /\ py_float v = Raise ValueError.
Proof.
  unfold range_pred. destruct (numeric_guard v).
  - destruct (py_float v) as [x | []]; cbn [bind]; split;
      try discriminate; try tauto.
    intros [_ H]. discriminate.
  - split; [discriminate | intros [H _]; discriminate].
Qed.

(** X15.  [sniff_type] raises [ValueError] exactly when some value of the
    sample passes the digit test of the latitude check and is not a literal
    [float] reads; otherwise it returns. *)
Theorem sniff_type_raises_iff (values : list (option string)) :
  sniff_type values = Raise ValueError
  <-> exists v, In v (sample_of values)
                /\ numeric_guard v = true /\ py_float v = Raise ValueError.
Proof.
  unfold sniff_type. cbv zeta.
  destruct (size (sample_of values) =? 0) eqn:N.
  - apply Z.eqb_eq in N. unfold size in N.
    assert (E : sample_of values = []) by (apply length_zero_iff_nil; lia).
    rewrite E. split; [discriminate | intros (v & [] & _)].
  - destruct (count_raising_cases lat_pred (sample_of values))
      as [[[c1 E1] All] | [E1 (v & Hv & Ev)]]; rewrite E1; cbn [bind].
    + destruct (count_raising_cases lng_pred (sample_of values))
        as [[[c2 E2] _] | [_ (v & Hv & Ev)]].
      * rewrite E2. cbn [bind]. split; [discriminate|].
        intros (v & Hv & G & F). destruct (All v Hv) as [b Eb].
        assert (R : lat_pred v = Raise ValueError)
          by (apply range_pred_Raise; tauto).
        congruence.
      * apply range_pred_Raise in Ev. destruct (All v Hv) as [b Eb].
        assert (R : lat_pred v = Raise ValueError)
          by (apply range_pred_Raise; exact Ev).
        congruence.
    + split; [|reflexivity]. intros _. exists v. split; [exact Hv|].
      now apply range_pred_Raise in Ev.
Qed.

(** X16.  When every one of the first 50 raw values is null or blank, in
    particular when there is no value, [sniff_type] returns no flag. *)
Theorem sniff_type_blank (values : list (option string)) :
  Forall (fun v => blank v = true) (firstn 50 values) ->
  sniff_type values = Ok [].
Proof.
  intros F.
  assert (E : sample_of values = []).
  { rewrite sample_of_kept. induction F as [|v l Hv _ IH]; simpl.
    - reflexivity.
    - rewrite IH, app_nil_r. unfold blank in Hv.
      destruct (kept v); [reflexivity | discriminate]. }
  unfold sniff_type. rewrite E. reflexivity.
Qed.

Lemma sniff_type_blank_witness :
  sniff_type [None; Some "  "; Some ""] = Ok [].
Proof.
  apply sniff_type_blank. repeat constructor.
Defined.

(** X17.  When [sniff_type] returns on a non-empty sample of size [n], it
    flags [email], [phone] and [website] exactly when at least
    [max(2, int(n * 0.2))] values, that is [max(2, n div 5)], match the
    pattern; a sample of one value gets none of these flags, and only the
    five known flags are ever returned. *)
Theorem contact_flag_threshold (values : list (option string))
  (res : list string) :
  sample_of values <> [] ->
  sniff_type values = Ok res ->
  let sample := sample_of values in
  let n := size sample in
  (In "email" res <-> Z.max 2 (n / 5) <= count email_match sample)
  /\ (In "phone" res <-> Z.max 2 (n / 5) <= count phone_search sample)
  /\ (In "website" res <-> Z.max 2 (n / 5) <= count url_match sample)
  /\ (n < 2 -> ~ In "email" res /\ ~ In "phone" res /\ ~ In "website" res)
  /\ incl res ["email"; "phone"; "website"; "lat"; "lng"].
Proof.
  intros Ne H. cbv zeta.
  pose proof (sample_of_size values) as B.
  assert (N0 : size (sample_of values) <> 0).
  { unfold size. destruct (sample_of values); [congruence | simpl; lia]. }
  pose proof (sniff_type_Ok values res H N0) as I. cbv zeta in I.
  destruct I as (_ & _ & I).
  rewrite (int_times_f0_2 _ B) in I.
  remember (sample_of values) as sample eqn:Es.
  remember (size sample) as n eqn:En.
  assert (Em : In "email" res <-> Z.max 2 (n / 5) <= count email_match sample).
  { rewrite I. split; [|tauto].
    intros [[L _] | [[_ E] | [[_ E] | [[_ E] | [_ E]]]]];
      try discriminate E. exact L. }
  assert (Ph : In "phone" res <-> Z.max 2 (n / 5) <= count phone_search sample).
  { rewrite I. split; [|tauto].
    intros [[_ E] | [[L _] | [[_ E] | [[_ E] | [_ E]]]]];
      try discriminate E. exact L. }
  assert (We : In "website" res <-> Z.max 2 (n / 5) <= count url_match sample).
  { rewrite I. split; [|tauto].
    intros [[_ E] | [[_ E] | [[L _] | [[_ E] | [_ E]]]]];
      try discriminate E. exact L. }
  split; [exact Em|]. split; [exact Ph|]. split; [exact We|]. split.
  - intros Lt.
    pose proof (count_bounds email_match sample).
    pose proof (count_bounds phone_search sample).
    pose proof (count_bounds url_match sample).
    rewrite Em, Ph, We. rewrite <- En in *. lia.
  - intros x Hx. apply I in Hx. simpl.
    destruct Hx as [[_ ->] | [[_ ->] | [[_ ->] | [[_ ->] | [_ ->]]]]]; tauto.
Qed.

Lemma contact_flag_threshold_witness :
  let sample := sample_of (strs ["a@b.co"; "x.y@z.org"; "nope"; " "]) in
  let n := size sample in
  (In "email" ["email"] <-> Z.max 2 (n / 5) <= count email_match sample)
  /\ (In "phone" ["email"] <-> Z.max 2 (n / 5) <= count phone_search sample)
  /\ (In "website" ["email"] <-> Z.max 2 (n / 5) <= count url_match sample)
  /\ (n < 2 -> ~ In "email" ["email"] /\ ~ In "phone" ["email"]
               /\ ~ In "website" ["email"])
  /\ incl ["email"] ["email"; "phone"; "website"; "lat"; "lng"].
Proof.
  apply (contact_flag_threshold (strs ["a@b.co"; "x.y@z.org"; "nope"; " "])
           ["email"]).
  - vm_compute. discriminate.
  - vm_compute. reflexivity.
Defined.

(** ** What the mapping holds *)

Lemma set_item_In {V} (k k' : string) (v v' : V) (d : list (string * V)) :
  In (k', v') (Py.set_item k v d) -> (k', v') = (k, v) \/ In (k', v') d.
Proof.
  induction d as [|[k0 v0] d IH]; simpl.
  - intros [H | []]. now left.
  - destruct (String.eqb k k0); simpl.
    + intros [H | H]; [now left | right; now right].
    + intros [H | H]; [right; now left | apply IH in H; tauto].
Qed.

Lemma set_item_keys {V} (k : string) (v : V) (d : list (string * V)) :
  keys (Py.set_item k v d)
  = if Py.mem k (keys d) then keys d else (keys d ++ [k])%list.
Proof.
  induction d as [|[k0 v0] d IH]; simpl; [reflexivity|].
  destruct (String.eqb k k0) eqn:E; simpl.
  - apply String.eqb_eq in E. now subst.
  - rewrite IH. now destruct (Py.mem k (keys d)).
Qed.

Lemma set_item_keys_NoDup {V} (k : string) (v : V) (d : list (string * V)) :
  NoDup (keys d) -> NoDup (keys (Py.set_item k v d)).
Proof.
  intros N. rewrite set_item_keys. destruct (Py.mem k (keys d)) eqn:E.
  - exact N.
  - apply mem_false in E. apply NoDup_app; [exact N | repeat constructor; tauto|].
    intros x Hx [<- | []]. contradiction.
Qed.

Lemma get_of_In {V} (k : string) (v : V) (d : list (string * V)) :
  NoDup (keys d) -> In (k, v) d -> Py.get k d = Some v.
Proof.
  induction d as [|[k0 v0] d IH]; simpl; [tauto|].
  intros N H. inversion N as [|? ? N1 N2]; subst.
  destruct H as [[= -> ->] | H].
  - now rewrite String.eqb_refl.
  - destruct (String.eqb k k0) eqn:E.
    + apply String.eqb_eq in E. subst k0. exfalso. apply N1.
      apply (in_map fst) in H. exact H.
    + now apply IH.
Qed.

Lemma assign_step_justified (t : Z) (all : Scores)
  (st : Mapping * list string) (fr : string * list entry) :
  In fr all -> justified t all st -> justified t all (assign_step t st fr).
Proof.
  intros Hin [N J]. destruct st as [m c], fr as [f ranked]. simpl in *.
  destruct (find _ ranked) as [best|] eqn:F; [|split; assumption].
  destruct (t <=? score best) eqn:T; [|split; assumption].
  apply find_free in F. destruct F as [Hb _]. apply Z.leb_le in T.
  split; simpl.
  - now apply set_item_keys_NoDup.
  - intros f' h' H. apply set_item_In in H. destruct H as [[= -> ->] | H].
    + exists ranked, best. tauto.
    + now apply J.
Qed.

Lemma assign_loop_justified (t : Z) (all todo : Scores)
  (st : Mapping * list string) :
  incl todo all -> justified t all st ->
  justified t all (assign_loop t todo st).
Proof.
  revert st. induction todo as [|fr todo IH]; intros st Sub J; simpl.
  - exact J.
  - apply IH.
    + intros x Hx. apply Sub. now right.
    + apply assign_step_justified; [apply Sub; now left | exact J].
Qed.

Lemma assign_justified (t : Z) (scores : Scores) :
  justified t scores (assign t scores, snd (assign_loop t scores ([], []))).
Proof.
  unfold assign.
  rewrite <- surjective_pairing.
  apply assign_loop_justified; [apply incl_refl|].
  split; simpl; [constructor | intros f h []].
Qed.

Lemma ranked_header (f : string) (al : list string)
  (fl : list (string * list string)) (headers : list string) (e : entry) :
  In e (sorted_desc (scored f al fl headers)) -> In (header e) headers.
Proof. intros H. now apply ranked_entry, scored_entry in H. Qed.

Lemma mapping_entries (set_iter : list string -> list string)
  (headers : list string) (rows : list Row) (learned : option AliasTable)
  (t : Z) (m : Mapping) (scores : Scores) :
  auto_map_columns set_iter headers rows learned t = Ok (m, scores) ->
  NoDup (keys m)
  /\ forall f h, In (f, h) m ->
       In h headers
       /\ exists ranked e,
            In (f, ranked) scores /\ In e ranked /\ header e = h
            /\ t <= score e.
Proof.
  intros H. pose proof H as H'. apply auto_map_columns_Ok in H'.
  destruct H' as (fl & _ & _ & ->).
  destruct (assign_justified t scores) as [N J]. simpl in N, J.
  split; [exact N|]. intros f h Hin.
  destruct (J f h Hin) as (ranked & e & Hr & He & Eh & T).
  split; [|exists ranked, e; tauto].
  destruct (scores_ranked _ _ _ _ _ _ _ _ _ H Hr) as (fl' & ->).
  rewrite <- Eh. eapply ranked_header, He.
Qed.

Lemma mapping_values_headers (set_iter : list string -> list string)
  (headers : list string) (rows : list Row) (learned : option AliasTable)
  (t : Z) (m : Mapping) (scores : Scores) :
  auto_map_columns set_iter headers rows learned t = Ok (m, scores) ->
  NoDup (map snd m) /\ incl (map snd m) headers.
Proof.
  intros H. split.
  - apply auto_map_columns_Ok in H. destruct H as (fl & _ & _ & ->).
    apply assign_NoDup.
  - intros h Hh. apply in_map_iff in Hh. destruct Hh as ([f h'] & <- & Hin).
    destruct (mapping_entries _ _ _ _ _ _ _ H) as [_ J].
    exact (proj1 (J f h' Hin)).
Qed.

Section Mapping.

Variable set_iter : list string -> list string.
Hypothesis set_iter_nodup : forall l, NoDup (set_iter l).
Hypothesis set_iter_elems : forall l x, In x (set_iter l) <-> In x l.

(** X18.  Every entry of the returned mapping gives a field one of the
    input headers, and that header's score in the field's ranked list
    reaches the threshold. *)
Theorem mapping_sound (headers : list string) (rows : list Row)
  (learned : option AliasTable) (threshold : Z) (m : Mapping)
  (scores : Scores) (f h : string) :
  auto_map_columns set_iter headers rows learned threshold = Ok (m, scores) ->
  In (f, h) m ->
  In h headers
  /\ exists ranked e,
       Py.get f scores = Some ranked /\ In e ranked /\ header e = h
       /\ threshold <= score e.
Proof.
  intros H Hin.
  destruct (mapping_entries _ _ _ _ _ _ _ H) as [_ J].
  destruct (J f h Hin) as (Hh & ranked & e & Hr & He & Eh & T).
  split; [exact Hh|]. exists ranked, e. split; [|tauto].
  apply get_of_In; [|exact Hr].
  rewrite (scores_keys _ _ _ _ _ _ _ H). apply set_iter_nodup.
Qed.

(** X19.  The mapping has at most as many entries as there are headers,
    and at most as many as there are canonical fields. *)
Theorem mapping_size (headers : list string) (rows : list Row)
  (learned : option AliasTable) (threshold : Z) (m : Mapping)
  (scores : Scores) :
  auto_map_columns set_iter headers rows learned threshold = Ok (m, scores) ->
  (List.length m <= List.length headers)%nat
  /\ (List.length m <= List.length scores)%nat.
Proof.
  intros H. split.
  - destruct (mapping_values_headers _ _ _ _ _ _ _ H) as [N I].
    rewrite <- (length_map snd m). now apply NoDup_incl_length.
  - destruct (mapping_entries _ _ _ _ _ _ _ H) as [N J].
    rewrite <- (length_map fst m), <- (length_map fst scores).
    apply NoDup_incl_length; [exact N|].
    intros f Hf. apply in_map_iff in Hf. destruct Hf as ([f' h] & <- & Hin).
    destruct (J f' h Hin) as (_ & ranked & _ & Hr & _).
    apply (in_map fst) in Hr. exact Hr.
Qed.

End Mapping.

Lemma mapping_sound_witness :
  In "Zip" demo_headers
  /\ exists ranked e,
       Py.get "postal_code" demo_scores = Some ranked /\ In e ranked
       /\ header e = "Zip" /\ 75 <= score e.
Proof.
  apply (mapping_sound iter_first iter_first_nodup demo_headers demo_rows None
           75 demo_mapping demo_scores "postal_code" "Zip").
  - vm_compute. reflexivity.
  - simpl. tauto.
Defined.

Lemma mapping_size_witness :
  (List.length demo_mapping <= List.length demo_headers)%nat
  /\ (List.length demo_mapping <= List.length demo_scores)%nat.
Proof.
  apply (mapping_size iter_first demo_headers demo_rows None 75 demo_mapping
           demo_scores).
  vm_compute. reflexivity.
Defined.

(** ** No header above the threshold is passed over *)

Lemma find_split {A} (p : A -> bool) (l : list A) (b : A) :
  find p l = Some b ->
  exists l1 l2, l = (l1 ++ b :: l2)%list
                /\ Forall (fun x => p x = false) l1 /\ p b = true.
Proof.
  induction l as [|x l IH]; simpl; [discriminate|].
  destruct (p x) eqn:E.
  - intros [= ->]. exists [], l. repeat split; [constructor | exact E].
  - intros F. destruct (IH F) as (l1 & l2 & -> & All & Pb).
    exists (x :: l1), l2. repeat split; [constructor; assumption | exact Pb].
Qed.

Lemma assign_loop_chosen_grows (t : Z) (todo : Scores)
  (st : Mapping * list string) (h : string) :
  In h (snd st) -> In h (snd (assign_loop t todo st)).
Proof.
  revert st. induction todo as [|fr todo IH]; intros st H; simpl.
  - exact H.
  - apply IH. now apply assign_step_chosen_grows.
Qed.

Lemma assign_prefix_values (t : Z) (pre rest : Scores) :
  NoDup (keys (pre ++ rest)%list) ->
  incl (map snd (assign t pre)) (map snd (assign t (pre ++ rest)%list)).
Proof.
  intros ND h Hh. unfold assign, assign_loop in *. rewrite fold_left_app.
  fold (assign_loop t pre ([], [])) in *.
  fold (assign_loop t rest (assign_loop t pre ([], []))).
  assert (B1 : balanced (assign_loop t pre ([], [])) rest).
  { apply assign_loop_balanced; [exact ND | apply balanced_init]. }
  assert (B2 : balanced (assign_loop t rest (assign_loop t pre ([], []))) []).
  { apply assign_loop_balanced.
    - rewrite app_nil_r. unfold keys in *. rewrite map_app in ND.
      now apply NoDup_app_remove_l in ND.
    - rewrite app_nil_r. exact B1. }
  destruct B1 as (_ & _ & _ & M1), B2 as (_ & _ & _ & M2).
  apply M2. apply assign_loop_chosen_grows. now apply M1.
Qed.

Section Greedy.

Variable set_iter : list string -> list string.
Hypothesis set_iter_nodup : forall l, NoDup (set_iter l).

(** X20.  No header that reaches the threshold for a field is passed over:
    either it is assigned to some field, or the field itself holds a header
    that scores at least as much.  So a field stays out of the mapping only
    when every header that reaches its threshold is held by another
    field. *)
Theorem no_missed_header (headers : list string) (rows : list Row)
  (learned : option AliasTable) (threshold : Z) (m : Mapping)
  (scores : Scores) (f : string) (ranked : list entry) (e : entry) :
  auto_map_columns set_iter headers rows learned threshold = Ok (m, scores) ->
  Py.get f scores = Some ranked ->
  In e ranked ->
  threshold <= score e ->
  In (header e) (map snd m)
  \/ exists e', Py.get f m = Some (header e') /\ In e' ranked
                /\ score e <= score e'.
Proof.
  intros H G He T.
  pose proof (scores_keys _ _ _ _ _ _ _ H) as K.
  assert (ND : NoDup (keys scores)) by (rewrite K; apply set_iter_nodup).
  pose proof (get_In _ _ _ G) as Hin.
  destruct (scores_ranked _ _ _ _ _ _ _ _ _ H Hin) as (fl & Er).
  assert (S : StronglySorted desc ranked)
    by (rewrite Er; apply sorted_desc_sorted).
  apply auto_map_columns_Ok in H. destruct H as (fl' & _ & _ & ->).
  destruct (in_split _ _ Hin) as (pre & post & E).
  rewrite E in ND |- *.
  pose proof (assign_greedy threshold pre post f ranked ND) as C.
  pose proof (assign_prefix_values threshold pre ((f, ranked) :: post) ND)
    as Grow.
  unfold claim in C.
  destruct (find _ ranked) as [best|] eqn:F.
  - destruct (find_split _ _ _ F) as (l1 & l2 & El & All & _).
    rewrite El in He. apply in_app_or in He. destruct He as [He | He].
    + left. apply Grow. rewrite Forall_forall in All.
      specialize (All e He). apply negb_false_iff in All.
      now apply mem_In.
    + right. exists best.
      assert (Le : score e <= score best).
      { destruct He as [<- | He]; [lia|].
        rewrite El in S. pose proof (sorted_split _ _ _ _ S) as A.
        rewrite Forall_forall in A. exact (A e He). }
      replace (threshold <=? score best) with true in C
        by (symmetry; apply Z.leb_le; lia).
      split; [exact C|]. split; [|exact Le].
      rewrite El. apply in_or_app. right. now left.
  - left. apply Grow. pose proof (find_none _ _ F e He) as N.
    apply negb_false_iff in N. now apply mem_In.
Qed.

End Greedy.

Lemma no_missed_header_witness :
  In (header {| header := "contact"; score := 87 |}) (map snd demo_mapping)
  \/ exists e', Py.get "email" demo_mapping = Some (header e')
                /\ In e' (Py.get_default "email" demo_scores [])
                /\ score {| header := "contact"; score := 87 |} <= score e'.
Proof.
  apply (no_missed_header iter_first iter_first_nodup demo_headers demo_rows
           None 75 demo_mapping demo_scores "email").
  - vm_compute. reflexivity.
  - vm_compute. reflexivity.
  - vm_compute. tauto.
  - simpl. lia.
Defined.

(** ** The import command *)

Lemma learned_for_storage_fold (learned : AliasTable) (m : Mapping)
  (acc : AliasTable) :
  NoDup (keys acc ++ keys m)%list ->
  fold_left
    (fun acc fh =>
       Py.set_item (fst fh)
         (Py.fromkeys (Py.get_default (fst fh) learned [] ++ [snd fh])%list)
         acc)
    m acc
  = (acc ++ map (fun fh =>
                   (fst fh,
                    Py.fromkeys (Py.get_default (fst fh) learned []
                                 ++ [snd fh])%list)) m)%list.
Proof.
  revert acc. induction m as [|[f h] m IH]; intros acc ND; simpl.
  - now rewrite app_nil_r.
  - simpl in ND. rewrite set_item_fresh.
    + rewrite IH.
      * now rewrite <- app_assoc.
      * unfold keys. rewrite map_app. simpl. rewrite <- app_assoc. exact ND.
    + apply NoDup_remove_2 in ND. intros H. apply ND.
      apply in_or_app. now left.
Qed.

Lemma learned_for_storage_map (learned : AliasTable) (m : Mapping) :
  NoDup (keys m) ->
  learned_for_storage learned m
  = map (fun fh =>
           (fst fh,
            Py.fromkeys (Py.get_default (fst fh) learned [] ++ [snd fh])%list))
        m.
Proof.
  intros ND. unfold learned_for_storage.
  now rewrite learned_for_storage_fold.
Qed.

Lemma learned_for_storage_get (learned : AliasTable) (m : Mapping)
  (f h : string) :
  NoDup (keys m) -> In (f, h) m ->
  Py.get f (learned_for_storage learned m)
  = Some (Py.fromkeys (Py.get_default f learned [] ++ [h])%list).
Proof.
  intros ND Hin. rewrite learned_for_storage_map by exact ND.
  apply get_of_In.
  - unfold keys. rewrite map_map. exact ND.
  - apply (in_map (fun fh => (fst fh,
                              Py.fromkeys (Py.get_default (fst fh) learned []
                                           ++ [snd fh])%list)) m (f, h)).
    exact Hin.
Qed.



Lemma same_header_same_score (f : string) (al : list string)
  (fl : list (string * list string)) (headers : list string) (e e' : entry) :
  In e (sorted_desc (scored f al fl headers)) ->
  In e' (sorted_desc (scored f al fl headers)) ->
  header e = header e' -> score e = score e'.
Proof.
  intros H H' E. apply ranked_entry, scored_entry in H, H'.
  destruct H as [_ ->], H' as [_ ->]. now rewrite E.
Qed.

Section ImportCommand.

Variable set_iter : list string -> list string.
Hypothesis set_iter_nodup : forall l, NoDup (set_iter l).
Hypothesis set_iter_elems : forall l x, In x (set_iter l) <-> In x l.

(** X22.  When the headers are distinct, the mapped and the unmapped
    columns the import command reports add up to the columns found, and no
    header is in both groups. *)
Theorem unmapped_partition (headers : list string) (rows : list Row)
  (learned : option AliasTable) (threshold : Z) (m : Mapping)
  (scores : Scores) :
  NoDup headers ->
  auto_map_columns set_iter headers rows learned threshold = Ok (m, scores) ->
  (List.length m + List.length (unmapped_columns headers m)
   = List.length headers)%nat
  /\ forall h, In h headers ->
       (In h (map snd m) <-> ~ In h (unmapped_columns headers m)).
Proof.
  intros NH H.
  destruct (mapping_values_headers _ _ _ _ _ _ _ H) as [NV I].
  split.
  - unfold unmapped_columns.
    rewrite <- (filter_length (fun h => Py.mem h (map snd m)) headers).
    f_equal. rewrite <- (length_map snd m).
    apply same_elements_length; [exact NV | now apply NoDup_filter|].
    intros x. rewrite filter_In, mem_In. split; [|tauto].
    intros Hx. split; [now apply I | exact Hx].
  - intros h Hh. unfold unmapped_columns.
    rewrite filter_In, negb_true_iff, mem_false.
    destruct (in_dec string_dec h (map snd m)); tauto.
Qed.

(** X23.  The confidence the import command prints beside a mapped field
    is found without a missing key and reaches the threshold. *)
Theorem confidence_reaches_threshold (headers : list string)
  (rows : list Row) (learned : option AliasTable) (threshold : Z)
  (m : Mapping) (scores : Scores) (f h : string) :
  auto_map_columns set_iter headers rows learned threshold = Ok (m, scores) ->
  In (f, h) m ->
  exists c, confidence scores f h = Some c /\ threshold <= c.
Proof.
  intros H Hin.
  destruct (mapping_entries _ _ _ _ _ _ _ H) as [_ J].
  destruct (J f h Hin) as (_ & ranked & e & Hr & He & Eh & T).
  assert (G : Py.get f scores = Some ranked).
  { apply get_of_In; [|exact Hr].
    rewrite (scores_keys _ _ _ _ _ _ _ H). apply set_iter_nodup. }
  unfold confidence. rewrite G. eexists. split; [reflexivity|].
  destruct (find (fun s => String.eqb (header s) h) ranked) as [s|] eqn:F.
  - apply find_some in F. destruct F as [Hs E]. apply String.eqb_eq in E.
    destruct (scores_ranked _ _ _ _ _ _ _ _ _ H Hr) as (fl & ->).
    rewrite (same_header_same_score _ _ _ _ s e Hs He) by congruence.
    exact T.
  - pose proof (find_none _ _ F e He) as N. simpl in N.
    rewrite Eh, String.eqb_refl in N. discriminate.
Qed.

(** X24.  After an import has stored its learned aliases, a later run on
    the same headers, with any rows and threshold, scores every pair it had
    mapped as an exact alias match: at least 180. *)
Theorem learned_alias_feedback (headers : list string) (rows rows' : list Row)
  (learned : option AliasTable) (t t' : Z) (m m' : Mapping)
  (scores scores' : Scores) (f h : string) :
  auto_map_columns set_iter headers rows learned t = Ok (m, scores) ->
  auto_map_columns set_iter headers rows'
    (Some (learned_for_storage (or_empty learned) m)) t' = Ok (m', scores') ->
  In (f, h) m ->
  exists ranked,
    Py.get f scores' = Some ranked
    /\ (exists e, In e ranked /\ header e = h)
    /\ forall e, In e ranked -> header e = h -> 180 <= score e.
Proof.
  intros H H' Hin.
  destruct (mapping_entries _ _ _ _ _ _ _ H) as [ND J].
  destruct (J f h Hin) as (Hh & _).
  pose proof (learned_for_storage_get (or_empty learned) m f h ND Hin) as G.
  assert (Kf : In f (keys scores')).
  { rewrite (scores_keys _ _ _ _ _ _ _ H'), set_iter_elems.
    apply in_or_app. right. simpl.
    apply get_In in G. apply (in_map fst) in G. exact G. }
  destruct (Py.get f scores') as [ranked|] eqn:G';
    [|apply get_None in G'; contradiction].
  exists ranked. split; [reflexivity|].
  destruct (scores_ranked _ _ _ _ _ _ _ _ _ H' (get_In _ _ _ G')) as (fl & ->).
  split.
  - eexists. split; [apply ranked_entry, in_map, Hh | reflexivity].
  - intros e He Eh. apply ranked_entry, scored_entry in He.
    destruct He as [_ ->]. rewrite Eh.
    apply (score_pair_exact f _ _ h h); [|reflexivity].
    apply fromkeys_In, in_or_app. right. simpl.
    unfold Py.get_default. rewrite G.
    apply fromkeys_In, in_or_app. right. now left.
Qed.

End ImportCommand.

Lemma unmapped_partition_witness :
  (List.length demo_mapping
   + List.length (unmapped_columns demo_headers demo_mapping)
   = List.length demo_headers)%nat
  /\ forall h, In h demo_headers ->
       (In h (map snd demo_mapping)
        <-> ~ In h (unmapped_columns demo_headers demo_mapping)).
Proof.
  apply (unmapped_partition iter_first demo_headers demo_rows None 75
           demo_mapping demo_scores).
  - repeat constructor; simpl; intuition discriminate.
  - vm_compute. reflexivity.
Defined.

Lemma confidence_reaches_threshold_witness :
  exists c, confidence demo_scores "email" "contact" = Some c /\ 75 <= c.
Proof.
  apply (confidence_reaches_threshold iter_first iter_first_nodup demo_headers
           demo_rows None 75 demo_mapping demo_scores "email" "contact").
  - vm_compute. reflexivity.
  - simpl. tauto.
Defined.

Lemma learned_alias_feedback_witness :
  exists m' scores',
    auto_map_columns iter_first demo_headers []
      (Some (learned_for_storage (or_empty None) demo_mapping)) 200
    = Ok (m', scores')
    /\ exists ranked,
         Py.get "email" scores' = Some ranked
         /\ (exists e, In e ranked /\ header e = "contact")
         /\ forall e, In e ranked -> header e = "contact" -> 180 <= score e.
Proof.
  eexists. eexists. split.
  - vm_compute. reflexivity.
  - eapply (learned_alias_feedback iter_first iter_first_elems demo_headers
              demo_rows [] None 75 200 demo_mapping _ demo_scores _
              "email" "contact").
    + vm_compute. reflexivity.
    + vm_compute. reflexivity.
    + simpl. tauto.
Defined.

(** ** The merged alias table *)

Lemma fromkeys_aux_prefix (seen b l : list string) :
  NoDup b -> (forall x, In x b -> ~ In x seen) ->
  Py.fromkeys_aux seen (b ++ l)%list
  = (b ++ Py.fromkeys_aux (rev b ++ seen)%list l)%list.
Proof.
  revert seen. induction b as [|x b IH]; intros seen ND Fresh; simpl.
  - reflexivity.
  - inversion ND as [|? ? Nx ND']; subst.
    replace (Py.mem x seen) with false
      by (symmetry; apply mem_false, Fresh; now left).
    f_equal. rewrite IH.
    + now rewrite <- app_assoc.
    + exact ND'.
    + intros y Hy [<- | H]; [contradiction|].
      apply (Fresh y); [now right | exact H].
Qed.

Lemma builtin_aliases_NoDup (f : string) :
  NoDup (Py.get_default f ALIASES []).
Proof.
  assert (F : Forall (fun p => Py.fromkeys (snd p) = snd p) ALIASES)
    by (repeat constructor).
  unfold Py.get_default. destruct (Py.get f ALIASES) as [l|] eqn:G;
    [|constructor].
  apply get_In in G. rewrite Forall_forall in F. specialize (F _ G).
  simpl in F. rewrite <- F. apply fromkeys_NoDup.
Qed.

Section Registry.

Variable set_iter : list string -> list string.
Hypothesis set_iter_elems : forall l x, In x (set_iter l) <-> In x l.

(** X25.  The merged alias table has a list for exactly the fields of the
    built-in and of the learned table.  The list of a field has no repeats,
    holds exactly the built-in and the learned aliases of the field, and
    starts with the built-in ones in their order. *)
Theorem alias_registry (learned : AliasTable) :
  (forall f, In f (keys (all_aliases set_iter learned))
             <-> In f (keys ALIASES) \/ In f (keys learned))
  /\ forall f al, In (f, al) (all_aliases set_iter learned) ->
       NoDup al
       /\ (forall a, In a al <->
                     In a (Py.get_default f ALIASES [])
                     \/ In a (Py.get_default f learned []))
       /\ exists rest, al = (Py.get_default f ALIASES [] ++ rest)%list.
Proof.
  split.
  - intros f. rewrite all_aliases_keys, set_iter_elems. apply in_app_iff.
  - intros f al Hin. unfold all_aliases in Hin. apply in_map_iff in Hin.
    destruct Hin as (k & E & _). injection E as -> <-.
    split; [apply fromkeys_NoDup|]. split.
    + intros a. rewrite fromkeys_In. apply in_app_iff.
    + unfold Py.fromkeys. rewrite fromkeys_aux_prefix.
      * eexists. reflexivity.
      * apply builtin_aliases_NoDup.
      * intros x _ [].
Qed.

End Registry.

Lemma alias_registry_witness :
  In "owner" (keys (all_aliases iter_first [("owner", ["proprietor"])]))
  <-> In "owner" (keys ALIASES) \/ In "owner" (keys [("owner", ["proprietor"])]).
Proof.
  exact (proj1 (alias_registry iter_first iter_first_elems
                  [("owner", ["proprietor"])]) "owner").
Defined.

(** ** The values on which [float] raises *)













(** ** The samples of a column *)

Lemma flat_map_single {A} (h : string) (x : list A) (headers : list string) :
  NoDup headers -> In h headers ->
  flat_map (fun h' => if String.eqb h' h then x else []) headers = x.
Proof.
  induction headers as [|k l IH]; simpl; [tauto|].
  intros ND Hin. inversion ND as [|? ? Nk ND']; subst.
  destruct (String.eqb k h) eqn:E.
  - apply String.eqb_eq in E. subst k.
    rewrite <- (app_nil_r x) at 2. f_equal.
    clear IH Hin ND ND'. induction l as [|k l IH]; simpl; [reflexivity|].
    destruct (String.eqb k h) eqn:E.
    + apply String.eqb_eq in E. subst k. exfalso. apply Nk. now left.
    + apply IH. intros H. apply Nk. now right.
  - apply String.eqb_neq in E. destruct Hin as [-> | Hin]; [congruence|].
    now apply IH.
Qed.

(** X27.  When the headers are distinct, the values sniffed for a header
    are the non-null cells of its column, in row order: a row that lacks
    the header or holds a null cell contributes nothing. *)
Theorem samples_by_header_column (headers : list string) (rows : list Row)
  (h : string) :
  NoDup headers -> In h headers ->
  samples_by_header headers rows h
  = flat_map (fun r => match Py.get h r with
                       | Some (Some v) => [v]
                       | _ => []
                       end) rows.
Proof.
  intros ND Hin. unfold samples_by_header.
  induction rows as [|r rows IH]; simpl; [reflexivity|].
  rewrite IH. f_equal. now apply flat_map_single.
Qed.

Lemma samples_by_header_column_witness :
  samples_by_header demo_headers demo_rows "businessName"
  = flat_map (fun r => match Py.get "businessName" r with
                       | Some (Some v) => [v]
                       | _ => []
                       end) demo_rows.
Proof.
  apply samples_by_header_column.
  - repeat constructor; simpl; intuition discriminate.
  - simpl. tauto.
Defined.

(** X28.  With a threshold above 250 the mapping is empty: no score
    exceeds 250. *)
Theorem threshold_above_scores (set_iter : list string -> list string)
  (headers : list string) (rows : list Row) (learned : option AliasTable)
  (threshold : Z) (m : Mapping) (scores : Scores) :
  250 < threshold ->
  auto_map_columns set_iter headers rows learned threshold = Ok (m, scores) ->
  m = [].
Proof.
  intros T H. destruct m as [|[f h] m]; [reflexivity|]. exfalso.
  destruct (mapping_entries _ _ _ _ _ _ _ H) as [_ J].
  destruct (J f h (or_introl eq_refl)) as (_ & ranked & e & Hr & He & _ & Le).
  destruct (scores_ranked _ _ _ _ _ _ _ _ _ H Hr) as (fl & ->).
  apply ranked_entry, scored_entry in He. destruct He as [_ E].
  pose proof (proj1 (score_pair_bounds f
      (Py.fromkeys (Py.get_default f ALIASES []
                    ++ Py.get_default f (or_empty learned) [])%list)
      (Py.get_default (header e) fl []) (header e))) as B.
  lia.
Qed.

Lemma threshold_above_scores_witness :
  @nil (string * string) = [].
Proof.
  apply (threshold_above_scores iter_first demo_headers demo_rows None 251 []
           demo_scores).
  - lia.
  - vm_compute. reflexivity.
Defined.
